(** * Camera access components: session lifecycle

    A shallow embedding of the three React components of the repository:

    - [CameraComponent]        (resolution hints, constraint fallback,
                                permission tracker, auto-start);
    - [SimpleCameraComponent]  (src/App.tsx: facing-only constraints,
                                permission query inside [startCamera]);
    - [SimpleCameraComponent2] (the second component that is also called
                                SimpleCameraComponent in the sources: fixed
                                640x480 request, auto-start on mount).

    The host (navigator.mediaDevices, navigator.permissions) is a test double
    that records every call in a log.  A handler is a function of the render
    snapshot it closes over (the [State] of the render that created it) and of
    the environment it acts on; an [await] ends a segment of a handler and
    leaves a [Pending] continuation behind.  An event is handled and rendered
    ([dispatch]); settlements that reach a component between two renders are
    run together and rendered once ([together]). *)

From Stdlib Require Import List String Bool Arith ZArith Lia.
Import ListNotations.
Open Scope string_scope.
Open Scope list_scope.

Set Primitive Projections.

(** ** Data *)

Inductive FacingMode := user | environment.
Inductive PermissionState := granted | denied | prompt.

Definition TrackId := nat.

(** A MediaStream object: [sid] is its identity, [getTracks] its tracks. *)
Record MediaStream := { sid : nat; getTracks : list TrackId }.

(** The shapes of constraints the components pass to getUserMedia. *)
Inductive Constraints :=
| CameraConstraints (facing : FacingMode)
    (width_ideal width_max height_ideal height_max : Z)
    (aspect_num aspect_den : Z) (audio : bool)
| FacingConstraints (facing : FacingMode) (audio : bool)
| SizeConstraints (width height : Z) (audio : bool)
| BasicConstraints (video audio : bool).

Record State := {
  stream : option MediaStream;
  isActive : bool;
  error : string;
  facingMode : FacingMode;
  isLoading : bool;
  permissions : PermissionState
}.

(** The video element behind [videoRef.current], when one is mounted. *)
Record VideoElement := { srcObject : option MediaStream }.

(** ** The host test double *)

Inductive HostEvent :=
| Query                       (* navigator.permissions.query({name:'camera'}) *)
| Request (c : Constraints)   (* navigator.mediaDevices.getUserMedia(c) *)
| Grant (ms : MediaStream)    (* the host resolves a request: tracks start *)
| Stop (t : TrackId)          (* track.stop() *)
| Disable (t : TrackId).      (* track.enabled = false *)

(** [log] is newest first; [fresh] numbers the next stream and its tracks. *)
Record Host := { hasCamera : bool; fresh : nat; log : list HostEvent }.

Record Env := { st : State; videoRef : option VideoElement; host : Host }.

(** How the host settles a getUserMedia promise, and a permission query. *)
Inductive StreamResult := Resolve (ntracks : nat) | RejectWith (name : string).
Inductive QueryResult := Status (p : PermissionState) | QueryError (name : string).

(** What a suspended handler is waiting for.  [AwaitQuery] keeps the render
    snapshot because the code after that await still reads [stream] and
    [facingMode] of its closure. *)
Inductive Pending :=
| AwaitQuery (snap : State)
| AwaitStream
| AwaitBasic
| AwaitPlay.

(** ** Reading the log *)

(** Tracks that were started and on which stop() has not been called. *)
Fixpoint live (l : list HostEvent) : list TrackId :=
  match l with
  | [] => []
  | Grant ms :: older => getTracks ms ++ live older
  | Stop t :: older => remove Nat.eq_dec t (live older)
  | _ :: older => live older
  end.

(** The constraints of the getUserMedia calls, newest first. *)
Fixpoint requests (l : list HostEvent) : list Constraints :=
  match l with
  | [] => []
  | Request c :: older => c :: requests older
  | _ :: older => requests older
  end.

(** The streams the host handed out, newest first. *)
Fixpoint grants (l : list HostEvent) : list MediaStream :=
  match l with
  | [] => []
  | Grant ms :: older => ms :: grants older
  | _ :: older => grants older
  end.

Definition is_nil {A} (l : list A) : bool :=
  match l with [] => true | _ => false end.

(** Every getUserMedia call and every grant in the log happened at a moment
    when no track was live. *)
Fixpoint exclusive (l : list HostEvent) : bool :=
  match l with
  | [] => true
  | Request _ :: older => is_nil (live older) && exclusive older
  | Grant _ :: older => is_nil (live older) && exclusive older
  | _ :: older => exclusive older
  end.

Definition tracks_of (s : option MediaStream) : list TrackId :=
  match s with Some ms => getTracks ms | None => [] end.

(** ** Statements of a handler *)

Definition Action := Env -> Env.

Definition skip : Action := fun e => e.
Definition andThen (a b : Action) : Action := fun e => b (a e).
Notation "a ;; b" := (andThen a b) (at level 61, right associativity).

Fixpoint forEach {A} (f : A -> Action) (l : list A) : Action :=
  match l with
  | [] => skip
  | x :: rest => f x ;; forEach f rest
  end.

Definition modState (f : State -> State) : Action :=
  fun e => {| st := f (st e); videoRef := videoRef e; host := host e |}.

Definition setStream (v : option MediaStream) : Action :=
  modState (fun s => {| stream := v; isActive := isActive s; error := error s;
    facingMode := facingMode s; isLoading := isLoading s;
    permissions := permissions s |}).
Definition setIsActive (v : bool) : Action :=
  modState (fun s => {| stream := stream s; isActive := v; error := error s;
    facingMode := facingMode s; isLoading := isLoading s;
    permissions := permissions s |}).
Definition setError (v : string) : Action :=
  modState (fun s => {| stream := stream s; isActive := isActive s; error := v;
    facingMode := facingMode s; isLoading := isLoading s;
    permissions := permissions s |}).
Definition setFacingMode (v : FacingMode) : Action :=
  modState (fun s => {| stream := stream s; isActive := isActive s;
    error := error s; facingMode := v; isLoading := isLoading s;
    permissions := permissions s |}).
Definition setIsLoading (v : bool) : Action :=
  modState (fun s => {| stream := stream s; isActive := isActive s;
    error := error s; facingMode := facingMode s; isLoading := v;
    permissions := permissions s |}).
Definition setPermissions (v : PermissionState) : Action :=
  modState (fun s => {| stream := stream s; isActive := isActive s;
    error := error s; facingMode := facingMode s; isLoading := isLoading s;
    permissions := v |}).

Definition emit (ev : HostEvent) : Action :=
  fun e => {| st := st e; videoRef := videoRef e;
              host := {| hasCamera := hasCamera (host e);
                         fresh := fresh (host e);
                         log := ev :: log (host e) |} |}.

(** track.stop() *)
Definition stop (t : TrackId) : Action := emit (Stop t).
(** track.stop(); track.enabled = false *)
Definition stopAndDisable (t : TrackId) : Action := emit (Stop t) ;; emit (Disable t).

Definition getUserMedia (c : Constraints) : Action := emit (Request c).
Definition permissionsQuery : Action := emit Query.

(** The host resolves a request with a new stream of [n] running tracks. *)
Definition newStream (n : nat) (e : Env) : MediaStream :=
  {| sid := fresh (host e); getTracks := seq (fresh (host e)) n |}.
Definition grant (n : nat) : Action :=
  fun e => {| st := st e; videoRef := videoRef e;
              host := {| hasCamera := hasCamera (host e);
                         fresh := fresh (host e) + S n;
                         log := Grant (newStream n e) :: log (host e) |} |}.

(** if (videoRef.current) videoRef.current.srcObject = v *)
Definition setSrcObject (v : option MediaStream) : Action :=
  fun e => match videoRef e with
           | Some _ => {| st := st e; videoRef := Some {| srcObject := v |};
                          host := host e |}
           | None => e
           end.

Definition toggle (f : FacingMode) : FacingMode :=
  match f with user => environment | environment => user end.

(** ** Rendering *)

Definition MediaStream_eqb (a b : MediaStream) : bool :=
  Nat.eqb (sid a) (sid b) &&
  if list_eq_dec Nat.eq_dec (getTracks a) (getTracks b) then true else false.

Definition same_stream (a b : option MediaStream) : bool :=
  match a, b with
  | None, None => true
  | Some x, Some y => MediaStream_eqb x y
  | _, _ => false
  end.

(** The cleanup of [useEffect(() => () => { if (stream) ... stop() }, [stream])],
    closed over the stream of the render that installed it. *)
Definition cleanup (old : option MediaStream) : Action :=
  match old with
  | Some s => forEach stop (getTracks s)
  | None => skip
  end.

(** The <video> element is rendered iff [isActive]; a newly mounted element
    has no srcObject, an unmounted one clears the ref. *)
Definition remount (before : State) : Action :=
  fun e =>
    if Bool.eqb (isActive before) (isActive (st e)) then e
    else {| st := st e;
            videoRef := if isActive (st e) then Some {| srcObject := None |}
                        else None;
            host := host e |}.

(** The state updates of a segment are committed in one render.  When the
    committed [stream] differs from the one of the previous render, the
    effect that depends on [stream] is re-run, and its old cleanup runs first. *)
Definition commit (before : State) : Action :=
  fun e =>
    (if same_stream (stream before) (stream (st e)) then skip
     else cleanup (stream before)) (remount before e).

Definition Segment := Env -> Env * option Pending.

Definition turn (f : Segment) : Segment :=
  fun e => let r := f e in (commit (st e) (fst r), snd r).

Definition done (a : Action) : Segment := fun e => (a e, None).
Definition await (p : Pending) (a : Action) : Segment := fun e => (a e, Some p).

Definition initialState : State :=
  {| stream := None; isActive := false; error := ""; facingMode := user;
     isLoading := false; permissions := prompt |}.

Definition initialEnv (cam : bool) : Env :=
  {| st := initialState; videoRef := None;
     host := {| hasCamera := cam; fresh := 0; log := [] |} |}.

(** ** Worlds and events

    A world is an environment together with the continuations still waiting
    for the host, the document-level interaction listener (with the render
    snapshot its closure was created in) and whether the component is mounted. *)

Record World := {
  env : Env;
  inflight : list Pending;
  listener : option State;
  mounted : bool
}.

Inductive Event :=
| ClickStart
| ClickStop
| ClickSwitch
| Interaction                                  (* click, touchstart or keydown on the document *)
| PermissionQueried (p : PermissionState)      (* the mount-time query resolves *)
| PermissionChanged (p : PermissionState)      (* 'change' on the PermissionStatus *)
| SettleQuery (i : nat) (q : QueryResult)
| SettleStream (i : nat) (r : StreamResult)
| SettlePlay (i : nat) (ok : bool)
| Unmount.

Definition opt_list {A} (o : option A) : list A :=
  match o with Some x => [x] | None => [] end.

Fixpoint remove_nth {A} (i : nat) (l : list A) : list A :=
  match i, l with
  | _, [] => []
  | O, _ :: rest => rest
  | S j, x :: rest => x :: remove_nth j rest
  end.

(** Run one segment of a handler and render: a segment that React renders
    before anything else runs.  Segments that run between two renders are
    [together] below.  On an unmounted component the state updates are
    dropped, the host calls are not. *)
Definition dispatch (f : Segment) (w : World) : World :=
  let r := f (env w) in
  {| env := if mounted w then commit (st (env w)) (fst r)
            else {| st := st (env w); videoRef := videoRef (env w);
                    host := host (fst r) |};
     inflight := inflight w ++ opt_list (snd r);
     listener := listener w;
     mounted := mounted w |}.

Definition take (i : nat) (w : World) : World :=
  {| env := env w; inflight := remove_nth i (inflight w);
     listener := listener w; mounted := mounted w |}.

(** Unmounting runs the cleanup of the stream effect and clears the ref. *)
Definition unmount (w : World) : World :=
  if mounted w then
    {| env := {| st := st (env w); videoRef := None;
                 host := host (cleanup (stream (st (env w))) (env w)) |};
       inflight := inflight w; listener := None; mounted := false |}
  else w.

Definition initialWorld (cam : bool) : World :=
  {| env := initialEnv cam; inflight := []; listener := None; mounted := true |}.

Definition run (step : World -> Event -> World) (evs : list Event) (w : World) : World :=
  fold_left step evs w.

(** ** Continuations that settle together

    React renders once for all the state updates made before it gets to
    render.  When the host settles several promises at once, their
    continuations run one after the other on the same render: the state
    updates queue up (every update here sets a value, so the last one of a
    field wins), the host and the video element are touched at once, and one
    render commits the lot.  [resumed] runs a segment without rendering,
    [rendered] is the render that follows, with the effects [c] of the
    component. *)
Definition resumed (f : Segment) (w : World) : World :=
  let r := f (env w) in
  {| env := if mounted w then fst r
            else {| st := st (env w); videoRef := videoRef (env w);
                    host := host (fst r) |};
     inflight := inflight w ++ opt_list (snd r);
     listener := listener w;
     mounted := mounted w |}.

Definition rendered (c : State -> Action) (before : State) (w : World) : World :=
  {| env := if mounted w then c before (env w) else env w;
     inflight := inflight w;
     listener := listener w;
     mounted := mounted w |}.

(** [continuation v ev] is the segment a settlement [ev] resumes in the world
    [v], with the world in which it is no longer in flight. *)
Definition together (continuation : World -> Event -> option (Segment * World))
    (c : State -> Action) (evs : list Event) (w : World) : World :=
  rendered c (st (env w))
    (fold_left (fun v ev => match continuation v ev with
                            | Some (f, v') => resumed f v'
                            | None => v
                            end) evs w).

(** ** CameraComponent (resolution hints, fallback, permission tracker) *)

Module CameraComponent.

(** width {ideal: 1280, max: 1920}, height {ideal: 720, max: 1080},
    aspectRatio {ideal: 16/9}, audio: false. *)
Definition getConstraints (facing : FacingMode) : Constraints :=
  CameraConstraints facing 1280%Z 1920%Z 720%Z 1080%Z 16%Z 9%Z false.

Definition basicConstraints : Constraints := BasicConstraints true false.

(** startCamera up to [await getUserMedia(constraints)]. *)
Definition startCamera (snap : State) : Segment :=
  fun e =>
    if negb (hasCamera (host e)) then
      done (setError "Camera not supported on this device") e
    else
      await AwaitStream
        (setIsLoading true ;;
         setError "" ;;
         match stream snap with
         | Some s => forEach stop (getTracks s)
         | None => skip
         end ;;
         getUserMedia (getConstraints (facingMode snap))) e.

(** From the settlement of the first request to the end of the handler or to
    [await getUserMedia(basicConstraints)]. *)
Definition startCamera_resumed (r : StreamResult) : Segment :=
  match r with
  | Resolve n =>
      fun e =>
        let mediaStream := newStream n e in
        done (grant n ;;
              setStream (Some mediaStream) ;;
              setIsActive true ;;
              setPermissions granted ;;
              setSrcObject (Some mediaStream) ;;
              setIsLoading false) e
  | RejectWith name =>
      if name =? "NotAllowedError" then
        done (setError "Camera access denied. Please allow camera permissions." ;;
              setPermissions denied ;;
              setIsLoading false)
      else if name =? "NotFoundError" then
        done (setError "No camera found on this device." ;;
              setIsLoading false)
      else if name =? "NotReadableError" then
        done (setError "Camera is already in use by another application." ;;
              setIsLoading false)
      else if name =? "OverconstrainedError" then
        await AwaitBasic
          (setError "Camera constraints not supported. Trying basic settings..." ;;
           getUserMedia basicConstraints)
      else
        done (setError "Unable to access camera. Please try again." ;;
              setIsLoading false)
  end.

(** From the settlement of the fallback request to the end of the handler. *)
Definition startCamera_fallback (r : StreamResult) : Segment :=
  match r with
  | Resolve n =>
      fun e =>
        let basicStream := newStream n e in
        done (grant n ;;
              setStream (Some basicStream) ;;
              setIsActive true ;;
              setSrcObject (Some basicStream) ;;
              setError "" ;;
              setIsLoading false) e
  | RejectWith _ =>
      done (setError "Unable to access camera with any settings." ;;
            setIsLoading false)
  end.

Definition stopCamera (snap : State) : Action :=
  match stream snap with
  | Some s => forEach stop (getTracks s) ;; setStream None
  | None => skip
  end ;;
  setIsActive false ;;
  setSrcObject None.

Definition switchCamera (snap : State) : Segment :=
  fun e =>
    let newFacingMode :=
      match facingMode snap with user => environment | environment => user end in
    let e' := setFacingMode newFacingMode e in
    if isActive snap then startCamera snap e' else (e', None).

(** The then-callback of the mount-time permission query; its [startCamera]
    is the one of the first render. *)
Definition onPermissionQueried (p : PermissionState) : Segment :=
  fun e =>
    match p with
    | granted => startCamera initialState (setPermissions p e)
    | _ => done (setPermissions p) e
    end.

(** handleUserInteraction, closed over the render that registered it. *)
Definition handleUserInteraction (snap : State) : Segment :=
  fun e =>
    if negb (isActive snap) && negb (isLoading snap) &&
       negb (match permissions snap with denied => true | _ => false end)
    then startCamera snap e
    else (e, None).

(** The interaction effect depends on [isActive, isLoading, permissions]. *)
Definition same_deps (a b : State) : bool :=
  Bool.eqb (isActive a) (isActive b) && Bool.eqb (isLoading a) (isLoading b) &&
  match permissions a, permissions b with
  | granted, granted | denied, denied | prompt, prompt => true
  | _, _ => false
  end.

Definition relisten (before : State) (w : World) : World :=
  if mounted w && negb (same_deps before (st (env w))) then
    {| env := env w; inflight := inflight w;
       listener := Some (st (env w)); mounted := mounted w |}
  else w.

Definition unlisten (w : World) : World :=
  {| env := env w; inflight := inflight w; listener := None; mounted := mounted w |}.

(** What the rendered buttons allow: nothing without camera support, Start
    when inactive and not loading, Stop and Switch when active. *)
Definition canStart (s : State) (h : Host) : bool :=
  hasCamera h && negb (isActive s) && negb (isLoading s).
Definition canStop (s : State) (h : Host) : bool := hasCamera h && isActive s.
Definition canSwitch (s : State) (h : Host) : bool := hasCamera h && isActive s.

Definition handle (w : World) (ev : Event) : World :=
  let snap := st (env w) in
  let h := host (env w) in
  match ev with
  | ClickStart =>
      if mounted w && canStart snap h then dispatch (startCamera snap) w else w
  | ClickStop =>
      if mounted w && canStop snap h then dispatch (done (stopCamera snap)) w else w
  | ClickSwitch =>
      if mounted w && canSwitch snap h then dispatch (switchCamera snap) w else w
  | Interaction =>
      match listener w with
      | Some lsnap => unlisten (dispatch (handleUserInteraction lsnap) w)
      | None => w
      end
  | PermissionQueried p => dispatch (onPermissionQueried p) w
  | PermissionChanged p => dispatch (done (setPermissions p)) w
  | SettleStream i r =>
      match nth_error (inflight w) i with
      | Some AwaitStream => dispatch (startCamera_resumed r) (take i w)
      | Some AwaitBasic => dispatch (startCamera_fallback r) (take i w)
      | _ => w
      end
  | Unmount => unmount w
  | _ => w
  end.

Definition step (w : World) (ev : Event) : World :=
  relisten (st (env w)) (handle w ev).

(** The component right after mounting.  Its mount effect has asked
    navigator.permissions for the camera permission when the host has that
    interface ([perms]), whether or not the host has a camera; the interaction
    effect has registered its handler. *)
Definition mountedWith (perms cam : bool) : World :=
  {| env := {| st := initialState; videoRef := None;
               host := {| hasCamera := cam; fresh := 0;
                          log := if perms then [Query] else [] |} |};
     inflight := [];
     listener := Some initialState; mounted := true |}.

Definition initial (cam : bool) : World := mountedWith true cam.

(** A handler of the current render called directly, not through a button
    (which the render may not show). *)
Definition invoke (handler : State -> Segment) (w : World) : World :=
  relisten (st (env w)) (dispatch (handler (st (env w))) w).

(** The continuations the host can settle: the then-callback of the
    mount-time query and the awaits of startCamera. *)
Definition continuation (w : World) (ev : Event) : option (Segment * World) :=
  match ev with
  | PermissionQueried p => Some (onPermissionQueried p, w)
  | SettleStream i r =>
      match nth_error (inflight w) i with
      | Some AwaitStream => Some (startCamera_resumed r, take i w)
      | Some AwaitBasic => Some (startCamera_fallback r, take i w)
      | _ => None
      end
  | _ => None
  end.

(** Settlements that reach the component between two renders. *)
Definition settleTogether (evs : list Event) (w : World) : World :=
  relisten (st (env w)) (together continuation commit evs w).

(** Calls that are awaited one after the other: every await of the call is
    settled (first request with [r1], fallback with [r2]) before it returns. *)
Definition settled (r1 r2 : StreamResult) (x : Env * option Pending) : Env :=
  match x with
  | (e1, Some AwaitStream) =>
      match turn (startCamera_resumed r1) e1 with
      | (e2, Some AwaitBasic) => fst (turn (startCamera_fallback r2) e2)
      | (e2, _) => e2
      end
  | (e1, _) => e1
  end.

Definition acquire (r1 r2 : StreamResult) (e : Env) : Env :=
  settled r1 r2 (turn (startCamera (st e)) e).

(** The same call made through the closure of the render [snap], which need
    not be the current one (the mount-time callback, a registered listener). *)
Definition acquireFrom (snap : State) (r1 r2 : StreamResult) (e : Env) : Env :=
  settled r1 r2 (turn (startCamera snap) e).

Definition release (e : Env) : Env := commit (st e) (stopCamera (st e) e).

Definition switchFacing (r1 r2 : StreamResult) (e : Env) : Env :=
  settled r1 r2 (turn (switchCamera (st e)) e).

(** The call ends without a session: no support, a terminal rejection, or an
    overconstrained rejection followed by a rejected fallback. *)
Definition fails (cam : bool) (r1 r2 : StreamResult) : bool :=
  negb cam ||
  match r1 with
  | Resolve _ => false
  | RejectWith name =>
      if name =? "OverconstrainedError" then
        match r2 with RejectWith _ => true | Resolve _ => false end
      else true
  end.

Inductive Op :=
| Acquire (r1 r2 : StreamResult)
| Release
| SwitchFacing (r1 r2 : StreamResult).

Definition perform (e : Env) (o : Op) : Env :=
  match o with
  | Acquire r1 r2 => acquire r1 r2 e
  | Release => release e
  | SwitchFacing r1 r2 => switchFacing r1 r2 e
  end.

End CameraComponent.

(** ** SimpleCameraComponent of src/App.tsx (permission query in startCamera) *)

Module SimpleCameraComponent.

Definition getConstraints (facing : FacingMode) : Constraints :=
  FacingConstraints facing false.

(** The catch block of startCamera. *)
Definition catchBlock (name : string) : Action :=
  if name =? "NotAllowedError" then
    setError "Camera access denied. Please allow camera permissions." ;;
    setPermissions denied
  else if name =? "NotFoundError" then
    setError "No camera found on this device."
  else if name =? "NotReadableError" then
    setError "Camera is already in use by another application."
  else
    setError "Unable to access camera. Please try again.".

(** startCamera up to [await navigator.permissions.query(...)]. *)
Definition startCamera (snap : State) : Segment :=
  fun e =>
    if negb (hasCamera (host e)) then
      done (setError "Camera not supported on this device") e
    else
      await (AwaitQuery snap)
        (setIsLoading true ;;
         setError "" ;;
         permissionsQuery) e.

(** From the settlement of the query to the early return, to the catch block,
    or to [await getUserMedia(constraints)].  The early return still passes
    through the finally block. *)
Definition startCamera_queried (snap : State) (q : QueryResult) : Segment :=
  match q with
  | Status denied =>
      done (setPermissions denied ;;
            setError "Camera access denied. Please allow camera permissions." ;;
            setIsLoading false ;;
            setIsLoading false)
  | Status p =>
      await AwaitStream
        (setPermissions p ;;
         match stream snap with
         | Some s => forEach stopAndDisable (getTracks s)
         | None => skip
         end ;;
         getUserMedia (getConstraints (facingMode snap)))
  | QueryError name =>
      done (catchBlock name ;;
            setIsLoading false)
  end.

(** From the settlement of the request to the end of the handler; play() is
    started but not awaited. *)
Definition startCamera_resumed (r : StreamResult) : Segment :=
  match r with
  | Resolve n =>
      fun e =>
        let mediaStream := newStream n e in
        ((grant n ;;
          setStream (Some mediaStream) ;;
          setIsActive true ;;
          setPermissions granted ;;
          setSrcObject (Some mediaStream) ;;
          setIsLoading false) e,
         match videoRef e with Some _ => Some AwaitPlay | None => None end)
  | RejectWith name =>
      done (catchBlock name ;;
            setIsLoading false)
  end.

(** The catch callback of videoRef.current.play(). *)
Definition startCamera_played (ok : bool) : Segment :=
  done (if ok then skip else setError "Failed to play video stream.").

(** videoRef.current.load() leaves nothing to record once srcObject is null. *)
Definition stopCamera (snap : State) : Action :=
  match stream snap with
  | Some s => forEach stopAndDisable (getTracks s) ;; setStream None
  | None => skip
  end ;;
  setSrcObject None ;;
  setIsActive false ;;
  setError "".

Definition switchCamera (snap : State) : Segment :=
  fun e =>
    let newFacingMode :=
      match facingMode snap with user => environment | environment => user end in
    let e' := setFacingMode newFacingMode e in
    if isActive snap then startCamera snap e' else (e', None).

Definition canStart (s : State) (h : Host) : bool :=
  hasCamera h && negb (isActive s) && negb (isLoading s).
Definition canStop (s : State) (h : Host) : bool := hasCamera h && isActive s.
Definition canSwitch (s : State) (h : Host) : bool := hasCamera h && isActive s.

Definition step (w : World) (ev : Event) : World :=
  let snap := st (env w) in
  let h := host (env w) in
  match ev with
  | ClickStart =>
      if mounted w && canStart snap h then dispatch (startCamera snap) w else w
  | ClickStop =>
      if mounted w && canStop snap h then dispatch (done (stopCamera snap)) w else w
  | ClickSwitch =>
      if mounted w && canSwitch snap h then dispatch (switchCamera snap) w else w
  | SettleQuery i q =>
      match nth_error (inflight w) i with
      | Some (AwaitQuery qsnap) => dispatch (startCamera_queried qsnap q) (take i w)
      | _ => w
      end
  | SettleStream i r =>
      match nth_error (inflight w) i with
      | Some AwaitStream => dispatch (startCamera_resumed r) (take i w)
      | _ => w
      end
  | SettlePlay i ok =>
      match nth_error (inflight w) i with
      | Some AwaitPlay => dispatch (startCamera_played ok) (take i w)
      | _ => w
      end
  | Unmount => unmount w
  | _ => w
  end.

Definition initial (cam : bool) : World := initialWorld cam.

Definition continuation (w : World) (ev : Event) : option (Segment * World) :=
  match ev with
  | SettleQuery i q =>
      match nth_error (inflight w) i with
      | Some (AwaitQuery qsnap) => Some (startCamera_queried qsnap q, take i w)
      | _ => None
      end
  | SettleStream i r =>
      match nth_error (inflight w) i with
      | Some AwaitStream => Some (startCamera_resumed r, take i w)
      | _ => None
      end
  | SettlePlay i ok =>
      match nth_error (inflight w) i with
      | Some AwaitPlay => Some (startCamera_played ok, take i w)
      | _ => None
      end
  | _ => None
  end.

(** Settlements that reach the component between two renders. *)
Definition settleTogether (evs : list Event) (w : World) : World :=
  together continuation commit evs w.

(** Calls awaited one after the other: the query settles with [q], the request
    with [r], and play() (when a video element is there) with [ok]. *)
Definition settled (q : QueryResult) (r : StreamResult) (ok : bool)
    (x : Env * option Pending) : Env :=
  match x with
  | (e1, Some (AwaitQuery snap)) =>
      match turn (startCamera_queried snap q) e1 with
      | (e2, Some AwaitStream) =>
          match turn (startCamera_resumed r) e2 with
          | (e3, Some AwaitPlay) => fst (turn (startCamera_played ok) e3)
          | (e3, _) => e3
          end
      | (e2, _) => e2
      end
  | (e1, _) => e1
  end.

Definition acquire (q : QueryResult) (r : StreamResult) (ok : bool) (e : Env) : Env :=
  settled q r ok (turn (startCamera (st e)) e).

(** The same call made through the closure of the render [snap]. *)
Definition acquireFrom (snap : State) (q : QueryResult) (r : StreamResult) (ok : bool)
    (e : Env) : Env :=
  settled q r ok (turn (startCamera snap) e).

Definition release (e : Env) : Env := commit (st e) (stopCamera (st e) e).

Definition switchFacing (q : QueryResult) (r : StreamResult) (ok : bool) (e : Env) : Env :=
  settled q r ok (turn (switchCamera (st e)) e).

(** The call ends without a new session: no support, a denied or failed
    query, or a rejected request. *)
Definition fails (cam : bool) (q : QueryResult) (r : StreamResult) : bool :=
  negb cam ||
  match q with
  | Status denied => true
  | Status _ => match r with RejectWith _ => true | Resolve _ => false end
  | QueryError _ => true
  end.

Inductive Op :=
| Acquire (q : QueryResult) (r : StreamResult) (ok : bool)
| Release
| SwitchFacing (q : QueryResult) (r : StreamResult) (ok : bool).

Definition perform (e : Env) (o : Op) : Env :=
  match o with
  | Acquire q r ok => acquire q r ok e
  | Release => release e
  | SwitchFacing q r ok => switchFacing q r ok e
  end.

End SimpleCameraComponent.

(** ** The second SimpleCameraComponent (640x480, auto-start on mount)

    Its state is {isStreaming, stream, error}: [isStreaming] is kept in the
    [isActive] field, the three other fields of [State] are never written.
    Its video element is always rendered, so the ref is set while mounted. *)

Module SimpleCameraComponent2.

Definition setIsStreaming : bool -> Action := setIsActive.

(** Without navigator.mediaDevices the call throws inside the try block. *)
Definition startCamera : Segment :=
  fun e =>
    if negb (hasCamera (host e)) then
      done (setError "" ;;
            setError "Failed to access camera. Please ensure you have given camera permissions.") e
    else
      await AwaitStream
        (setError "" ;;
         getUserMedia (SizeConstraints 640%Z 480%Z false)) e.

Definition startCamera_resumed (r : StreamResult) : Segment :=
  match r with
  | Resolve n =>
      fun e =>
        let mediaStream := newStream n e in
        done (grant n ;;
              match videoRef e with
              | Some _ =>
                  setSrcObject (Some mediaStream) ;;
                  setStream (Some mediaStream) ;;
                  setIsStreaming true
              | None => skip
              end) e
  | RejectWith _ =>
      done (setError "Failed to access camera. Please ensure you have given camera permissions.")
  end.

Definition stopCamera (snap : State) : Action :=
  match stream snap with
  | Some s => forEach stop (getTracks s) ;; setStream None
  | None => skip
  end ;;
  setSrcObject None ;;
  setIsStreaming false.

(** Rendering: only the stream effect reacts, the video element stays. *)
Definition commit2 (before : State) : Action :=
  fun e =>
    (if same_stream (stream before) (stream (st e)) then skip
     else cleanup (stream before)) e.

(** One segment, then a render (see [dispatch]). *)
Definition dispatch2 (f : Segment) (w : World) : World :=
  let r := f (env w) in
  {| env := if mounted w then commit2 (st (env w)) (fst r)
            else {| st := st (env w); videoRef := videoRef (env w);
                    host := host (fst r) |};
     inflight := inflight w ++ opt_list (snd r);
     listener := listener w;
     mounted := mounted w |}.

(** Unmounting runs both cleanups: the one of the mount effect, closed over
    the stream of the first render (null), and the one of the stream effect. *)
Definition unmount2 (w : World) : World :=
  if mounted w then
    {| env := {| st := st (env w); videoRef := None;
                 host := host ((cleanup (stream initialState) ;;
                                cleanup (stream (st (env w)))) (env w)) |};
       inflight := inflight w; listener := None; mounted := false |}
  else w.

Definition step (w : World) (ev : Event) : World :=
  let snap := st (env w) in
  match ev with
  | ClickStart =>
      if mounted w && negb (isActive snap) then dispatch2 startCamera w else w
  | ClickStop =>
      if mounted w && isActive snap then dispatch2 (done (stopCamera snap)) w else w
  | SettleStream i r =>
      match nth_error (inflight w) i with
      | Some AwaitStream => dispatch2 (startCamera_resumed r) (take i w)
      | _ => w
      end
  | Unmount => unmount2 w
  | _ => w
  end.

(** The component right after mounting: the mount effect has called
    startCamera. *)
Definition initial (cam : bool) : World :=
  dispatch2 startCamera
    {| env := {| st := initialState; videoRef := Some {| srcObject := None |};
                 host := {| hasCamera := cam; fresh := 0; log := [] |} |};
       inflight := []; listener := None; mounted := true |}.

Definition continuation (w : World) (ev : Event) : option (Segment * World) :=
  match ev with
  | SettleStream i r =>
      match nth_error (inflight w) i with
      | Some AwaitStream => Some (startCamera_resumed r, take i w)
      | _ => None
      end
  | _ => None
  end.

(** Settlements that reach the component between two renders. *)
Definition settleTogether (evs : list Event) (w : World) : World :=
  together continuation commit2 evs w.

End SimpleCameraComponent2.

(** ** The log of a forEach over tracks

    [stopLog d l older] is the log after calling stop() (and, when [d],
    setting enabled to false) on the tracks [l] in order. *)

Fixpoint stopLog (d : bool) (l : list TrackId) (older : list HostEvent) : list HostEvent :=
  match l with
  | [] => older
  | t :: rest =>
      stopLog d rest (if d then Disable t :: Stop t :: older else Stop t :: older)
  end.

Definition withLog (f : list HostEvent -> list HostEvent) : Action :=
  fun e => {| st := st e; videoRef := videoRef e;
              host := {| hasCamera := hasCamera (host e);
                         fresh := fresh (host e);
                         log := f (log (host e)) |} |}.

(** Sequential invariant: the log is exclusive and every live track belongs
    to the stream the component holds. *)
Definition holds_only (e : Env) : Prop :=
  exclusive (log (host e)) = true /\
  incl (live (log (host e))) (tracks_of (stream (st e))).

(** The first attempt was rejected as overconstrained, which is the one case
    in which CameraComponent asks the host a second time. *)
Definition retried (r1 : StreamResult) : bool :=
  match r1 with
  | Resolve _ => false
  | RejectWith name => name =? "OverconstrainedError"
  end.

(** The query let the call of src/App.tsx go on to getUserMedia. *)
Definition asked (q : QueryResult) : bool :=
  match q with
  | Status denied => false
  | Status _ => true
  | QueryError _ => false
  end.

(** A state without a session; the other fields are free. *)
Definition inactiveState (err : string) (fm : FacingMode) (ld : bool)
    (pm : PermissionState) : State :=
  {| stream := None; isActive := false; error := err; facingMode := fm;
     isLoading := ld; permissions := pm |}.

(** ** Sample environments

    A session that was started by one granted call on a fresh component. *)


Definition activeSimple : Env :=
  SimpleCameraComponent.acquire (Status prompt) (Resolve 1) true (initialEnv true).

(** A world of CameraComponent that holds a session of one track. *)
Definition activeWorld : World :=
  run CameraComponent.step [ClickStart; SettleStream 0 (Resolve 1)]
    (CameraComponent.initial true).

(** The auto-starting component with the request of its mount effect in
    flight and Start clicked on top of it. *)
Definition doubleStart : World :=
  SimpleCameraComponent2.step (SimpleCameraComponent2.initial true) ClickStart.

(** ** Predicates on environments and worlds *)

(** The session flag says whether a stream is stored. *)
Definition flag_agrees (e : Env) : Prop :=
  isActive (st e) = match stream (st e) with Some _ => true | None => false end.

(** A component without camera support whose host log is still [l], with
    nothing in flight and no session. *)
Definition untouched (l : list HostEvent) (w : World) : Prop :=
  hasCamera (host (env w)) = false /\
  log (host (env w)) = l /\
  inflight w = [] /\
  stream (st (env w)) = None /\
  isActive (st (env w)) = false.

(** A world of CameraComponent whose first request is in flight. *)
Definition loadingWorld : World :=
  CameraComponent.step (CameraComponent.initial true) ClickStart.

(** What matters of a world for the next handler. *)
Definition same_world (a b : World) : Prop :=
  env a = env b /\ inflight a = inflight b /\ mounted a = mounted b.

(** A world of CameraComponent with a session and a switch in flight. *)
Definition switchingWorld : World :=
  CameraComponent.step activeWorld ClickSwitch.

(** The continuation belongs to a startCamera that has not finished. *)
Definition awaiting_start (p : Pending) : bool :=
  match p with AwaitPlay => false | _ => true end.

(** While the component is mounted and loading, a startCamera is waiting for
    the host. *)
Definition loading_awaited (w : World) : Prop :=
  mounted w = true -> isLoading (st (env w)) = true ->
  existsb awaiting_start (inflight w) = true.

(** The audio flag of a constraint set. *)
Definition audio_of (c : Constraints) : bool :=
  match c with
  | CameraConstraints _ _ _ _ _ _ _ a => a
  | FacingConstraints _ a => a
  | SizeConstraints _ _ a => a
  | BasicConstraints _ a => a
  end.

(** A segment that ends or continues a startCamera: if it leaves the flag
    set, it leaves a continuation of startCamera behind. *)
Definition continues (f : Segment) : Prop :=
  forall e, isLoading (st (fst (f e))) = true ->
            exists p, snd (f e) = Some p /\ awaiting_start p = true.

(** A segment that may begin one: the flag is set only if it was set before
    or a continuation of startCamera is left behind. *)
Definition begins (f : Segment) : Prop :=
  forall e, isLoading (st (fst (f e))) = true ->
            isLoading (st e) = true \/
            exists p, snd (f e) = Some p /\ awaiting_start p = true.


(** No getUserMedia call in the log asked for audio. *)
Definition no_audio (e : Env) : Prop :=
  Forall (fun c => audio_of c = false) (requests (log (host e))).

(** Segments that leave the stored facing mode, or the host's camera
    support, as they found it. *)
Definition keeps_facing (f : Segment) : Prop :=
  forall e, facingMode (st (fst (f e))) = facingMode (st e).

Definition keeps_support (f : Segment) : Prop :=
  forall e, hasCamera (host (fst (f e))) = hasCamera (host e).

(** The registered interaction handler sees the current values of what it
    tests, and - when its render was inactive - of what its startCamera reads. *)
Definition listener_current (w : World) : Prop :=
  forall snap, mounted w = true -> listener w = Some snap ->
    CameraComponent.same_deps snap (st (env w)) = true /\
    (isActive snap = false ->
     facingMode snap = facingMode (st (env w)) /\
     stream snap = stream (st (env w))).

(** The guard of handleUserInteraction, read on a state. *)
Definition idle (s : State) : bool :=
  negb (isActive s) && negb (isLoading s) &&
  negb (match permissions s with denied => true | _ => false end).

(** Every live track belongs to the stored stream. *)
Definition held (e : Env) : Prop :=
  incl (live (log (host e))) (tracks_of (stream (st e))).

(** A segment makes no track live but those of the stream it stores. *)
Definition adds_only_held (f : Segment) : Prop :=
  forall e t, In t (live (log (host (fst (f e))))) ->
    In t (tracks_of (stream (st (fst (f e))))) \/ In t (live (log (host e))).

(** The same for a component whose video element is always rendered. *)
Definition adds_only_held2 (f : Segment) : Prop :=
  forall e, videoRef e <> None ->
    videoRef (fst (f e)) <> None /\
    forall t, In t (live (log (host (fst (f e))))) ->
      In t (tracks_of (stream (st (fst (f e))))) \/ In t (live (log (host e))).

(** * Properties *)

Section LogLemmas.

Lemma forEach_stop_log (l : list TrackId) (e : Env) :
  forEach stop l e = withLog (stopLog false l) e.
Proof.
  revert e; induction l as [|t rest IH]; intros [s v [c f lg]].
  - reflexivity.
  - cbn [forEach]. unfold andThen. rewrite IH. reflexivity.
Qed.

Lemma forEach_stopAndDisable_log (l : list TrackId) (e : Env) :
  forEach stopAndDisable l e = withLog (stopLog true l) e.
Proof.
  revert e; induction l as [|t rest IH]; intros [s v [c f lg]].
  - reflexivity.
  - cbn [forEach]. unfold andThen. rewrite IH. reflexivity.
Qed.

Lemma stopLog_app (d : bool) (l : list TrackId) (older : list HostEvent) :
  stopLog d l older = stopLog d l [] ++ older.
Proof.
  revert older; induction l as [|t rest IH]; intros older; cbn [stopLog].
  - reflexivity.
  - rewrite IH. rewrite (IH (if d then _ else _)).
    destruct d; rewrite <- app_assoc; reflexivity.
Qed.

Lemma live_stopLog (d : bool) (l : list TrackId) (older : list HostEvent) (t : TrackId) :
  In t (live (stopLog d l older)) <-> In t (live older) /\ ~ In t l.
Proof.
  revert older; induction l as [|x rest IH]; intros older; cbn [stopLog].
  - cbn. tauto.
  - rewrite IH. destruct d; cbn [live In].
    + split.
      * intros [Hin Hrest]. apply in_remove in Hin. intuition congruence.
      * intros [Hin Hno]. split; [apply in_in_remove|]; intuition congruence.
    + split.
      * intros [Hin Hrest]. apply in_remove in Hin. intuition congruence.
      * intros [Hin Hno]. split; [apply in_in_remove|]; intuition congruence.
Qed.

Lemma live_stopLog_incl (d : bool) (l : list TrackId) (older : list HostEvent) :
  incl (live (stopLog d l older)) (live older).
Proof. intros t Ht. apply live_stopLog in Ht. tauto. Qed.

Lemma live_stopLog_nil (d : bool) (l : list TrackId) (older : list HostEvent) :
  incl (live older) l -> live (stopLog d l older) = [].
Proof.
  intros Hincl. destruct (live (stopLog d l older)) as [|t rest] eqn:E; [reflexivity|].
  assert (Ht : In t (live (stopLog d l older))) by (rewrite E; left; reflexivity).
  apply live_stopLog in Ht. destruct Ht as [Hin Hno]. elim Hno. apply Hincl, Hin.
Qed.

Lemma exclusive_stopLog (d : bool) (l : list TrackId) (older : list HostEvent) :
  exclusive (stopLog d l older) = exclusive older.
Proof.
  revert older; induction l as [|x rest IH]; intros older; cbn [stopLog];
    [reflexivity|]. rewrite IH. destruct d; reflexivity.
Qed.

Lemma requests_stopLog (d : bool) (l : list TrackId) (older : list HostEvent) :
  requests (stopLog d l older) = requests older.
Proof.
  revert older; induction l as [|x rest IH]; intros older; cbn [stopLog];
    [reflexivity|]. rewrite IH. destruct d; reflexivity.
Qed.

Lemma grants_stopLog (d : bool) (l : list TrackId) (older : list HostEvent) :
  grants (stopLog d l older) = grants older.
Proof.
  revert older; induction l as [|x rest IH]; intros older; cbn [stopLog];
    [reflexivity|]. rewrite IH. destruct d; reflexivity.
Qed.

Lemma same_stream_refl (a : option MediaStream) : same_stream a a = true.
Proof.
  destruct a as [[i l]|]; [|reflexivity]. unfold same_stream, MediaStream_eqb.
  cbn [sid getTracks]. rewrite Nat.eqb_refl.
  destruct (list_eq_dec Nat.eq_dec l l) as [_|n]; [reflexivity | elim n; reflexivity].
Qed.

Lemma same_stream_eq (a b : option MediaStream) : same_stream a b = true -> a = b.
Proof.
  destruct a as [[i l]|], b as [[j m]|]; cbn [same_stream]; try congruence.
  unfold MediaStream_eqb; cbn [sid getTracks]. intros H.
  apply andb_prop in H. destruct H as [H1 H2].
  apply Nat.eqb_eq in H1. destruct (list_eq_dec Nat.eq_dec l m); congruence.
Qed.

End LogLemmas.

(** ** Rendering lemmas *)

Section Rendering.

Variables (before : State) (e : Env).

Lemma commit_same :
  stream before = stream (st e) -> isActive before = isActive (st e) ->
  commit before e = e.
Proof.
  intros Hs Ha. unfold commit, remount. rewrite Hs, Ha, same_stream_refl.
  rewrite Bool.eqb_reflx. reflexivity.
Qed.

Lemma st_remount : st (remount before e) = st e.
Proof. unfold remount. destruct (Bool.eqb _ _); reflexivity. Qed.

Lemma host_remount : host (remount before e) = host e.
Proof. unfold remount. destruct (Bool.eqb _ _); reflexivity. Qed.

Lemma st_commit : st (commit before e) = st e.
Proof.
  unfold commit.
  destruct (same_stream _ _); [apply st_remount|].
  unfold cleanup. destruct (stream before); [|apply st_remount].
  rewrite forEach_stop_log. cbn. apply st_remount.
Qed.

Lemma log_commit :
  log (host (commit before e)) =
  if same_stream (stream before) (stream (st e)) then log (host e)
  else stopLog false (tracks_of (stream before)) (log (host e)).
Proof.
  unfold commit.
  destruct (same_stream _ _); [unfold skip; now rewrite host_remount|].
  unfold cleanup. destruct (stream before); cbn [tracks_of stopLog].
  - rewrite forEach_stop_log. cbn. now rewrite host_remount.
  - unfold skip. now rewrite host_remount.
Qed.

Lemma hasCamera_commit : hasCamera (host (commit before e)) = hasCamera (host e).
Proof.
  unfold commit.
  destruct (same_stream _ _); [unfold skip; now rewrite host_remount|].
  unfold cleanup. destruct (stream before).
  - rewrite forEach_stop_log. cbn. now rewrite host_remount.
  - unfold skip. now rewrite host_remount.
Qed.

Lemma fresh_commit : fresh (host (commit before e)) = fresh (host e).
Proof.
  unfold commit.
  destruct (same_stream _ _); [unfold skip; now rewrite host_remount|].
  unfold cleanup. destruct (stream before).
  - rewrite forEach_stop_log. cbn. now rewrite host_remount.
  - unfold skip. now rewrite host_remount.
Qed.

Lemma requests_commit : requests (log (host (commit before e))) = requests (log (host e)).
Proof. rewrite log_commit. destruct (same_stream _ _); [|apply requests_stopLog]; reflexivity. Qed.

Lemma grants_commit : grants (log (host (commit before e))) = grants (log (host e)).
Proof. rewrite log_commit. destruct (same_stream _ _); [|apply grants_stopLog]; reflexivity. Qed.

Lemma exclusive_commit : exclusive (log (host (commit before e))) = exclusive (log (host e)).
Proof. rewrite log_commit. destruct (same_stream _ _); [|apply exclusive_stopLog]; reflexivity. Qed.

Lemma live_commit_incl : incl (live (log (host (commit before e)))) (live (log (host e))).
Proof.
  rewrite log_commit. destruct (same_stream _ _); [apply incl_refl|apply live_stopLog_incl].
Qed.


End Rendering.

(** ** Symbolic execution

    A call is run one render at a time: the handlers are unfolded, the tests
    on the error name are decided from the hypotheses, the innermost [turn]
    is evaluated on an explicit environment, and a render that leaves
    [stream] and [isActive] alone is dropped before the next one is run. *)

Ltac eval_env :=
  cbv beta iota zeta delta
    [andThen skip modState setStream setIsActive setError setFacingMode
     setIsLoading setPermissions emit getUserMedia
     permissionsQuery grant newStream setSrcObject done await
     withLog tracks_of toggle inactiveState
     SimpleCameraComponent2.setIsStreaming
     CameraComponent.basicConstraints SimpleCameraComponent.getConstraints
     st videoRef host stream isActive error facingMode isLoading permissions
     hasCamera fresh log sid getTracks srcObject
     fst snd negb andb orb].

(** Comparisons of two literal error names are decided on the spot. *)
Ltac eval_names :=
  repeat match goal with
         | |- context [String.eqb ?a ?b] =>
             let v := eval vm_compute in (String.eqb a b) in
             match v with
             | true => change (String.eqb a b) with true
             | false => change (String.eqb a b) with false
             end
         end.

Ltac use_tests :=
  repeat match goal with
         | H : String.eqb ?a ?b = _ |- context [String.eqb ?a ?b] => rewrite H
         end.

Ltac unfold_handlers :=
  unfold CameraComponent.startCamera, CameraComponent.startCamera_resumed,
    CameraComponent.startCamera_fallback, CameraComponent.stopCamera,
    CameraComponent.switchCamera,
    SimpleCameraComponent.startCamera, SimpleCameraComponent.startCamera_queried,
    SimpleCameraComponent.startCamera_resumed,
    SimpleCameraComponent.startCamera_played, SimpleCameraComponent.stopCamera,
    SimpleCameraComponent.switchCamera, SimpleCameraComponent.catchBlock.

Ltac stops_to_log :=
  repeat match goal with
         | |- context [forEach stop _ _] => rewrite forEach_stop_log
         | |- context [forEach stopAndDisable _ _] =>
             rewrite forEach_stopAndDisable_log
         end.

Ltac commits_away :=
  repeat match goal with
         | |- context [st (commit _ _)] => rewrite st_commit
         | |- context [requests (log (host (commit _ _)))] => rewrite requests_commit
         | |- context [grants (log (host (commit _ _)))] => rewrite grants_commit
         | |- context [exclusive (log (host (commit _ _)))] => rewrite exclusive_commit
         | |- context [hasCamera (host (commit _ _))] => rewrite hasCamera_commit
         | |- context [fresh (host (commit _ _))] => rewrite fresh_commit
         end.

Ltac stops_away :=
  repeat match goal with
         | |- context [requests (stopLog _ _ _)] => rewrite requests_stopLog
         | |- context [grants (stopLog _ _ _)] => rewrite grants_stopLog
         | |- context [exclusive (stopLog _ _ _)] => rewrite exclusive_stopLog
         end.

Ltac same_commits :=
  repeat match goal with
         | |- context [commit ?b ?X] => rewrite (commit_same b X) by reflexivity
         end.

Ltac one_turn :=
  match goal with
  | |- context [turn ?f ?E] =>
      let v := eval cbv beta iota zeta delta
                 [turn andThen skip modState setStream setIsActive setError
                  setFacingMode setIsLoading setPermissions emit
                  getUserMedia permissionsQuery grant newStream
                  setSrcObject done await withLog tracks_of toggle
                  st videoRef host stream isActive error facingMode isLoading
                  permissions hasCamera fresh log sid getTracks srcObject
                  fst snd negb andb orb] in (turn f E) in
      change (turn f E) with v
  end.

Ltac turns :=
  repeat (unfold_handlers; use_tests; eval_names; eval_env;
          try one_turn; stops_to_log; eval_env; same_commits;
          cbv beta iota delta [CameraComponent.settled SimpleCameraComponent.settled
                               fst snd]).

Ltac exec :=
  unfold CameraComponent.acquire, CameraComponent.switchFacing,
    CameraComponent.release, SimpleCameraComponent.acquire,
    SimpleCameraComponent.switchFacing, SimpleCameraComponent.release;
  turns;
  commits_away;
  eval_env;
  cbn [requests grants exclusive live app];
  stops_away.

Ltac open_env e :=
  destruct e as [[[?s|] ?act ?err ?fm ?ld ?pm] [[?src]|] [?cam ?fr ?lg]];
  cbn [st videoRef host stream isActive error facingMode isLoading permissions
       hasCamera fresh log] in *.

(** Case analysis on the name tests of a catch block, in source order. *)
Ltac by_name name :=
  destruct (name =? "NotAllowedError") eqn:?NotAllowed;
  [| destruct (name =? "NotFoundError") eqn:?NotFound;
     [| destruct (name =? "NotReadableError") eqn:?NotReadable;
        [| destruct (name =? "OverconstrainedError") eqn:?Overconstrained ] ] ].

Ltac name_known :=
  repeat match goal with
         | H : (?name =? _) = true |- _ => apply String.eqb_eq in H; subst name
         end.

(** How the two awaits of a CameraComponent call settle. *)
Ltac camera_cases r1 r2 :=
  destruct r1 as [?n|?name];
  [| by_name name; name_known;
     try (destruct r2 as [?m|?name2]) ].

(** How the awaits of a SimpleCameraComponent call settle. *)
Ltac simple_cases q r ok :=
  destruct q as [[| |]|?qname];
  [ destruct r as [?n|?name]; [destruct ok | by_name name; name_known]
  |
  | destruct r as [?n|?name]; [destruct ok | by_name name; name_known]
  | by_name qname; name_known ].

Ltac finish :=
  use_tests; cbn [requests grants exclusive live app];
  stops_away;
  try reflexivity.

(** ** The requests of one call *)

Lemma CameraComponent_acquire_requests (e : Env) (r1 r2 : StreamResult) :
  hasCamera (host e) = true ->
  requests (log (host (CameraComponent.acquire r1 r2 e))) =
  (if retried r1 then [CameraComponent.basicConstraints] else []) ++
  CameraComponent.getConstraints (facingMode (st e)) :: requests (log (host e)).
Proof.
  intros Hcam. open_env e; subst cam.
  all: camera_cases r1 r2; unfold retried.
  all: exec; finish.
Qed.

Lemma SimpleCameraComponent_acquire_requests
    (e : Env) (q : QueryResult) (r : StreamResult) (ok : bool) :
  hasCamera (host e) = true ->
  requests (log (host (SimpleCameraComponent.acquire q r ok e))) =
  (if asked q then [SimpleCameraComponent.getConstraints (facingMode (st e))]
   else []) ++ requests (log (host e)).
Proof.
  intros Hcam. open_env e; subst cam.
  all: simple_cases q r ok; unfold asked.
  all: exec; finish.
Qed.

(** ** Pre-flight denial (src/App.tsx) *)

(** C10. In SimpleCameraComponent of src/App.tsx, when the permission query
    inside startCamera reports 'denied', the call sets the error message and
    permissions = denied and returns: the log gains the query only (no
    getUserMedia call, no stop()), and stream, isActive, the live tracks and
    the video element are exactly as before.  The same holds when the call
    comes from switchCamera on an active session. *)
Theorem C10_denied_preflight_leaves_session
    (e : Env) (r : StreamResult) (ok : bool) :
  hasCamera (host e) = true ->
  let e' := SimpleCameraComponent.acquire (Status denied) r ok e in
  let e'' := SimpleCameraComponent.switchFacing (Status denied) r ok e in
  (error (st e') = "Camera access denied. Please allow camera permissions." /\
   permissions (st e') = denied /\
   stream (st e') = stream (st e) /\
   isActive (st e') = isActive (st e) /\
   log (host e') = Query :: log (host e) /\
   live (log (host e')) = live (log (host e)) /\
   videoRef e' = videoRef e) /\
  (isActive (st e) = true ->
   permissions (st e'') = denied /\
   stream (st e'') = stream (st e) /\
   isActive (st e'') = true /\
   log (host e'') = Query :: log (host e) /\
   videoRef e'' = videoRef e).
Proof.
  intros Hcam. open_env e; subst cam.
  all: split; [|intros Hact; subst act]; exec; repeat split.
Qed.

Lemma C10_witness :
  hasCamera (host activeSimple) = true /\
  stream (st (SimpleCameraComponent.acquire (Status denied) (Resolve 1) true activeSimple))
  = Some {| sid := 0; getTracks := [0] |}.
Proof.
  split; [reflexivity|].
  destruct (C10_denied_preflight_leaves_session activeSimple (Resolve 1) true eq_refl)
    as [(_ & _ & Hs & _) _].
  rewrite Hs. reflexivity.
Defined.

(** ** Switching the facing mode *)

Lemma switchCamera_inactive (e : Env) :
  isActive (st e) = false ->
  let e' := setFacingMode (toggle (facingMode (st e))) e in
  turn (CameraComponent.switchCamera (st e)) e = (e', None) /\
  turn (SimpleCameraComponent.switchCamera (st e)) e = (e', None) /\
  (forall r1 r2, CameraComponent.switchFacing r1 r2 e = e') /\
  (forall q r ok, SimpleCameraComponent.switchFacing q r ok e = e').
Proof.
  intros Hact e'.
  assert (Hcamera : turn (CameraComponent.switchCamera (st e)) e = (e', None)).
  { subst e'. open_env e; subst act; turns; destruct fm; reflexivity. }
  assert (Hsimple : turn (SimpleCameraComponent.switchCamera (st e)) e = (e', None)).
  { subst e'. open_env e; subst act; turns; destruct fm; reflexivity. }
  split; [exact Hcamera|]. split; [exact Hsimple|].
  split; [intros r1 r2; unfold CameraComponent.switchFacing; now rewrite Hcamera|].
  intros q r ok; unfold SimpleCameraComponent.switchFacing; now rewrite Hsimple.
Qed.

Lemma same_deps_facing (e : Env) (f : FacingMode) :
  CameraComponent.same_deps (st e) (st (setFacingMode f e)) = true.
Proof.
  destruct e as [[s a er fm ld [| |]] v h]; unfold CameraComponent.same_deps;
    cbn; rewrite !Bool.eqb_reflx; reflexivity.
Qed.

(** C9 fails for a closure of an earlier render.  On a freshly mounted
    CameraComponent (inactive, facing 'user', the interaction handler of the
    first render registered) call switchCamera: the stored facing becomes
    'environment' and, facingMode not being a dependency of the interaction
    effect, the handler stays the one of the first render.  The next
    startCamera is the one an interaction on the page triggers, and it asks
    the host with facing 'user'. *)
Lemma C9_counterexample :
  let w := CameraComponent.initial true in
  let w1 := CameraComponent.invoke CameraComponent.switchCamera w in
  let w2 := CameraComponent.step w1 Interaction in
  isActive (st (env w)) = false /\
  facingMode (st (env w1)) = environment /\
  log (host (env w1)) = log (host (env w)) /\
  listener w1 = Some initialState /\
  requests (log (host (env w2))) =
    [CameraConstraints user 1280 1920 720 1080 16 9 false] /\
  facingMode (st (env w2)) = environment.
Proof. vm_compute. repeat split. Qed.

(** C9, amended.  When no session is active, switchCamera only stores the
    toggled facing mode: the environment after the call is the old one with
    [facingMode] toggled (every other state field, the video element and the
    host log are the same, so no host call was made), nothing is left pending,
    and in CameraComponent the registered interaction handler is left as it
    is.  The next startCamera of the new render - the one the Start button
    calls - then asks the host with the new facing: in CameraComponent with
    {facingMode: new, width 1280/1920, height 720/1080, aspectRatio 16/9,
    audio: false} (followed by {video: true, audio: false} if that is
    rejected as overconstrained), in src/App.tsx with {facingMode: new,
    audio: false}.  A closure of an earlier render still holds the old
    facing (the counterexample). *)
Theorem C9_switch_inactive_only_toggles (w : World) :
  mounted w = true ->
  isActive (st (env w)) = false ->
  let e := env w in
  let new := toggle (facingMode (st e)) in
  let e' := setFacingMode new e in
  turn (CameraComponent.switchCamera (st e)) e = (e', None) /\
  turn (SimpleCameraComponent.switchCamera (st e)) e = (e', None) /\
  (forall r1 r2, CameraComponent.switchFacing r1 r2 e = e') /\
  (forall q r ok, SimpleCameraComponent.switchFacing q r ok e = e') /\
  log (host e') = log (host e) /\
  (let w' := CameraComponent.invoke CameraComponent.switchCamera w in
   env w' = e' /\ inflight w' = inflight w /\ listener w' = listener w) /\
  (hasCamera (host e) = true ->
   (forall r1 r2,
      requests (log (host (CameraComponent.acquire r1 r2 e'))) =
      (if retried r1 then [BasicConstraints true false] else []) ++
      CameraConstraints new 1280 1920 720 1080 16 9 false ::
      requests (log (host e))) /\
   (forall q r ok, asked q = true ->
      requests (log (host (SimpleCameraComponent.acquire q r ok e'))) =
      FacingConstraints new false :: requests (log (host e)))).
Proof.
  intros Hm Hact e new e'.
  destruct (switchCamera_inactive e Hact) as (Hcamera & Hsimple & Hcf & Hsf).
  fold new e' in Hcamera, Hsimple, Hcf, Hsf.
  split; [exact Hcamera|]. split; [exact Hsimple|].
  split; [exact Hcf|]. split; [exact Hsf|].
  split; [reflexivity|]. split.
  - cbv zeta. subst e'. subst new. subst e.
    unfold CameraComponent.invoke, dispatch. rewrite Hm.
    change (commit (st (env w)) (fst (CameraComponent.switchCamera (st (env w)) (env w))))
      with (fst (turn (CameraComponent.switchCamera (st (env w))) (env w))).
    replace (snd (CameraComponent.switchCamera (st (env w)) (env w)))
      with (snd (turn (CameraComponent.switchCamera (st (env w))) (env w)))
      by reflexivity.
    rewrite Hcamera. cbn [fst snd opt_list]. rewrite app_nil_r.
    unfold CameraComponent.relisten. cbn [mounted env].
    rewrite same_deps_facing. cbn [negb andb]. repeat split.
  - intros Hcam. split.
    + intros r1 r2. rewrite CameraComponent_acquire_requests by exact Hcam. reflexivity.
    + intros q r ok Hq.
      rewrite SimpleCameraComponent_acquire_requests by exact Hcam.
      rewrite Hq. reflexivity.
Qed.

Lemma C9_witness :
  mounted (CameraComponent.initial true) = true /\
  isActive (st (env (CameraComponent.initial true))) = false /\
  requests (log (host (CameraComponent.acquire (Resolve 1) (Resolve 1)
                         (setFacingMode environment
                            (env (CameraComponent.initial true)))))) =
    [CameraConstraints environment 1280 1920 720 1080 16 9 false].
Proof.
  split; [reflexivity|]. split; [reflexivity|].
  exact (proj1 (proj2 (proj2 (proj2 (proj2 (proj2 (proj2
           (C9_switch_inactive_only_toggles (CameraComponent.initial true)
              eq_refl eq_refl)))))) eq_refl) (Resolve 1) (Resolve 1)).
Defined.


(** ** Constraint fallback *)

(** C5 fails on src/App.tsx: its catch block has no overconstrained case, so
    the one request of the call is the only one and no retry with minimal
    constraints is made. *)
Lemma C5_counterexample :
  let e := SimpleCameraComponent.acquire (Status prompt)
             (RejectWith "OverconstrainedError") true (initialEnv true) in
  log (host e) = [Request (FacingConstraints user false); Query] /\
  ~ In (BasicConstraints true false) (requests (log (host e))).
Proof.
  split; [reflexivity|]. cbn. intros [H|[]]. discriminate H.
Qed.

Lemma CameraComponent_fallback_rejected (e : Env) (name : string) :
  hasCamera (host e) = true ->
  let b := CameraComponent.acquire (RejectWith "OverconstrainedError")
             (RejectWith name) e in
  error (st b) = "Unable to access camera with any settings." /\
  isLoading (st b) = false /\
  isActive (st b) = isActive (st e).
Proof.
  intros Hcam. open_env e; subst cam.
  all: exec; repeat split.
Qed.

Lemma CameraComponent_fallback_granted (e : Env) (n : nat) :
  hasCamera (host e) = true ->
  let b := CameraComponent.acquire (RejectWith "OverconstrainedError") (Resolve n) e in
  error (st b) = "" /\ isActive (st b) = true.
Proof.
  intros Hcam. open_env e; subst cam.
  all: exec; repeat split.
Qed.

Lemma SimpleCameraComponent_overconstrained
    (e : Env) (q : QueryResult) (ok : bool) :
  hasCamera (host e) = true -> asked q = true ->
  error (st (SimpleCameraComponent.acquire q (RejectWith "OverconstrainedError") ok e))
  = "Unable to access camera. Please try again.".
Proof.
  intros Hcam Hq. open_env e; subst cam.
  all: destruct q as [[| |]|qname]; try discriminate Hq.
  all: exec; reflexivity.
Qed.

(** C5, amended.  In CameraComponent a first attempt rejected with
    OverconstrainedError is followed by exactly one more request, with
    {video: true, audio: false}; when that one is rejected too the error is
    the catch-all "Unable to access camera with any settings." and the session
    flag is as before, when it is granted the session is active.  Any other
    rejection is followed by no further request.  SimpleCameraComponent of
    src/App.tsx never retries: an overconstrained rejection gets the catch-all
    "Unable to access camera. Please try again." after its single request. *)
Theorem C5_constraint_fallback
    (e : Env) (r2 : StreamResult) (q : QueryResult) (ok : bool) :
  hasCamera (host e) = true ->
  asked q = true ->
  let b := CameraComponent.acquire (RejectWith "OverconstrainedError") r2 e in
  let a := SimpleCameraComponent.acquire q (RejectWith "OverconstrainedError") ok e in
  requests (log (host b)) =
    BasicConstraints true false ::
    CameraComponent.getConstraints (facingMode (st e)) :: requests (log (host e)) /\
  (forall name, r2 = RejectWith name ->
     error (st b) = "Unable to access camera with any settings." /\
     isLoading (st b) = false /\
     isActive (st b) = isActive (st e)) /\
  (forall n, r2 = Resolve n -> error (st b) = "" /\ isActive (st b) = true) /\
  (forall name, (name =? "OverconstrainedError") = false ->
     requests (log (host (CameraComponent.acquire (RejectWith name) r2 e))) =
     CameraComponent.getConstraints (facingMode (st e)) :: requests (log (host e))) /\
  requests (log (host a)) =
    FacingConstraints (facingMode (st e)) false :: requests (log (host e)) /\
  error (st a) = "Unable to access camera. Please try again.".
Proof.
  intros Hcam Hq b a.
  split; [subst b; now rewrite CameraComponent_acquire_requests by exact Hcam|].
  split; [intros name ->; now apply CameraComponent_fallback_rejected|].
  split; [intros n ->; now apply CameraComponent_fallback_granted|].
  split; [|split].
  - intros name Hname.
    rewrite CameraComponent_acquire_requests by exact Hcam.
    cbn [retried]. rewrite Hname. reflexivity.
  - subst a. rewrite SimpleCameraComponent_acquire_requests by exact Hcam.
    rewrite Hq. reflexivity.
  - now apply SimpleCameraComponent_overconstrained.
Qed.

Lemma C5_witness :
  hasCamera (host (initialEnv true)) = true /\
  asked (Status prompt) = true /\
  requests (log (host (CameraComponent.acquire (RejectWith "OverconstrainedError")
                         (RejectWith "NotReadableError") (initialEnv true)))) =
  [BasicConstraints true false; CameraComponent.getConstraints user].
Proof.
  split; [reflexivity|]. split; [reflexivity|].
  exact (proj1 (C5_constraint_fallback (initialEnv true)
                  (RejectWith "NotReadableError") (Status prompt) true eq_refl eq_refl)).
Defined.

(** ** Permission state after a call *)

Lemma CameraComponent_acquire_permissions (e : Env) (r1 r2 : StreamResult) :
  hasCamera (host e) = true ->
  permissions (st (CameraComponent.acquire r1 r2 e)) =
  match r1 with
  | Resolve _ => granted
  | RejectWith name =>
      if name =? "NotAllowedError" then denied else permissions (st e)
  end.
Proof.
  intros Hcam. open_env e; subst cam.
  all: camera_cases r1 r2.
  all: exec; finish.
Qed.

(** In src/App.tsx the query result is stored first; the outcome of the
    request then follows the same rule. *)
Lemma SimpleCameraComponent_acquire_permissions
    (e : Env) (q : QueryResult) (r : StreamResult) (ok : bool) :
  hasCamera (host e) = true ->
  permissions (st (SimpleCameraComponent.acquire q r ok e)) =
  match q with
  | Status denied => denied
  | Status p =>
      match r with
      | Resolve _ => granted
      | RejectWith name => if name =? "NotAllowedError" then denied else p
      end
  | QueryError name =>
      if name =? "NotAllowedError" then denied else permissions (st e)
  end.
Proof.
  intros Hcam. open_env e; subst cam.
  all: simple_cases q r ok.
  all: exec; finish.
Qed.

(** C7, on the code: in CameraComponent a call whose first attempt is
    rejected as overconstrained and whose fallback attempt is granted ends
    with an active session, a stream the host has just handed out, and the
    permission state it started with; on a fresh component that is 'prompt',
    not 'granted'.  (The fallback success path has no
    setPermissions('granted').) *)
Theorem C7_fallback_grant_keeps_permission
    (s : State) (v : option VideoElement) (fr : nat) (lg : list HostEvent) (n : nat) :
  let e := {| st := s; videoRef := v;
              host := {| hasCamera := true; fresh := fr; log := lg |} |} in
  let e' := CameraComponent.acquire (RejectWith "OverconstrainedError") (Resolve n) e in
  isActive (st e') = true /\
  stream (st e') = Some {| sid := fr; getTracks := seq fr n |} /\
  grants (log (host e')) = {| sid := fr; getTracks := seq fr n |} :: grants lg /\
  permissions (st e') = permissions s /\
  permissions (st (CameraComponent.acquire (RejectWith "OverconstrainedError")
                     (Resolve 1) (initialEnv true))) = prompt.
Proof.
  intros e e'. subst e e'.
  split; [|split; [|split; [|split; [|reflexivity]]]].
  4: rewrite CameraComponent_acquire_permissions by reflexivity; reflexivity.
  all: destruct s as [[str|] act err fm ld pm], v as [[src]|].
  all: exec; finish.
Qed.

(** ** Release *)

(** A render whose [stream] or [isActive] did change, on explicit states. *)
Ltac eval_commit :=
  unfold commit, remount, cleanup;
  cbv beta iota delta
    [same_stream Bool.eqb skip st videoRef host stream isActive];
  stops_to_log; eval_env.

Ltac exec_release :=
  unfold CameraComponent.release, SimpleCameraComponent.release;
  repeat (turns; eval_commit).

Lemma CameraComponent_release_twice (e : Env) :
  CameraComponent.release (CameraComponent.release e) = CameraComponent.release e.
Proof.
  open_env e; destruct act.
  all: unfold CameraComponent.release at 2; turns; eval_commit.
  all: exec_release; reflexivity.
Qed.

Lemma SimpleCameraComponent_release_twice (e : Env) :
  SimpleCameraComponent.release (SimpleCameraComponent.release e) =
  SimpleCameraComponent.release e.
Proof.
  open_env e; destruct act.
  all: unfold SimpleCameraComponent.release at 2; turns; eval_commit.
  all: exec_release; reflexivity.
Qed.

(** C8 fails on src/App.tsx: stopCamera clears the error message whether or
    not a stream is held, so releasing without a session changes the state
    left by a failed start. *)
Lemma C8_counterexample :
  let e := SimpleCameraComponent.acquire (Status prompt)
             (RejectWith "NotFoundError") true (initialEnv true) in
  stream (st e) = None /\ isActive (st e) = false /\
  error (st e) = "No camera found on this device." /\
  error (st (SimpleCameraComponent.release e)) = "" /\
  st (SimpleCameraComponent.release e) <> st e.
Proof.
  repeat split. intros H. apply (f_equal error) in H. discriminate H.
Qed.

(** C8, amended.  In both components releasing twice gives the same
    environment (state, video element and host log) as releasing once.
    Releasing without a session calls the host not at all and keeps stream,
    isActive, facingMode, isLoading and permissions; CameraComponent keeps the
    error too, so its state is unchanged, while SimpleCameraComponent of
    src/App.tsx sets the error to the empty string.  Both clear srcObject of
    a video element that is there. *)
Theorem C8_release_idempotent
    (e : Env) (err : string) (fm : FacingMode) (ld : bool) (pm : PermissionState)
    (v : option VideoElement) (h : Host) :
  let idle := {| st := inactiveState err fm ld pm; videoRef := v; host := h |} in
  CameraComponent.release (CameraComponent.release e) = CameraComponent.release e /\
  SimpleCameraComponent.release (SimpleCameraComponent.release e) =
    SimpleCameraComponent.release e /\
  CameraComponent.release idle = setSrcObject None idle /\
  st (CameraComponent.release idle) = st idle /\
  host (CameraComponent.release idle) = h /\
  SimpleCameraComponent.release idle = setError "" (setSrcObject None idle) /\
  st (SimpleCameraComponent.release idle) = inactiveState "" fm ld pm /\
  host (SimpleCameraComponent.release idle) = h.
Proof.
  intros idle. subst idle.
  split; [apply CameraComponent_release_twice|].
  split; [apply SimpleCameraComponent_release_twice|].
  destruct v as [[src]|], h as [cam fr lg].
  all: exec_release; repeat split.
Qed.

(** ** Switching while a session is active *)

(** What switchCamera asks the host for is built from the facing mode of the
    render whose handler runs, not from the toggled one it has just stored. *)
Lemma CameraComponent_switchFacing_active (e : Env) (r1 r2 : StreamResult) :
  hasCamera (host e) = true -> isActive (st e) = true ->
  facingMode (st (CameraComponent.switchFacing r1 r2 e)) = toggle (facingMode (st e)) /\
  requests (log (host (CameraComponent.switchFacing r1 r2 e))) =
  (if retried r1 then [CameraComponent.basicConstraints] else []) ++
  CameraComponent.getConstraints (facingMode (st e)) :: requests (log (host e)).
Proof.
  intros Hcam Hact. open_env e; subst cam act.
  all: camera_cases r1 r2; unfold retried.
  all: exec; finish; destruct fm; split; reflexivity.
Qed.

Lemma SimpleCameraComponent_switchFacing_active
    (e : Env) (q : QueryResult) (r : StreamResult) (ok : bool) :
  hasCamera (host e) = true -> isActive (st e) = true ->
  facingMode (st (SimpleCameraComponent.switchFacing q r ok e)) =
    toggle (facingMode (st e)) /\
  requests (log (host (SimpleCameraComponent.switchFacing q r ok e))) =
  (if asked q then [SimpleCameraComponent.getConstraints (facingMode (st e))]
   else []) ++ requests (log (host e)).
Proof.
  intros Hcam Hact. open_env e; subst cam act.
  all: simple_cases q r ok; unfold asked.
  all: exec; finish; destruct fm; split; reflexivity.
Qed.

(** C4, on the code: start on a fresh component (facing 'user'), let the host
    grant, click Switch, let the host grant again.  The session is active and
    the stored facing mode is 'environment', but both requests carried
    facingMode 'user': the second one was built from the facing mode of the
    render in which Switch was clicked.  This is so in CameraComponent and in
    SimpleCameraComponent of src/App.tsx. *)
Theorem C4_switch_requests_previous_facing :
  let w := run CameraComponent.step
             [ClickStart; SettleStream 0 (Resolve 1);
              ClickSwitch; SettleStream 0 (Resolve 1)]
             (CameraComponent.initial true) in
  let w' := run SimpleCameraComponent.step
              [ClickStart; SettleQuery 0 (Status prompt); SettleStream 0 (Resolve 1);
               ClickSwitch; SettleQuery 0 (Status granted); SettleStream 0 (Resolve 1)]
              (SimpleCameraComponent.initial true) in
  (isActive (st (env w)) = true /\
   facingMode (st (env w)) = environment /\
   requests (log (host (env w))) =
     [CameraComponent.getConstraints user; CameraComponent.getConstraints user]) /\
  (isActive (st (env w')) = true /\
   facingMode (st (env w')) = environment /\
   requests (log (host (env w'))) =
     [FacingConstraints user false; FacingConstraints user false]).
Proof. vm_compute. repeat split. Qed.

(** ** Calls while a call is in flight *)

(** The Start button is disabled while loading ... *)
Lemma ClickStart_while_loading (w : World) :
  isLoading (st (env w)) = true ->
  CameraComponent.handle w ClickStart = w /\
  SimpleCameraComponent.step w ClickStart = w.
Proof.
  intros H. unfold CameraComponent.handle, SimpleCameraComponent.step,
    CameraComponent.canStart, SimpleCameraComponent.canStart.
  rewrite H. rewrite !andb_false_r. split; reflexivity.
Qed.

(** ... and handleUserInteraction checks isLoading before it starts. *)
Lemma Interaction_while_loading (w : World) (snap : State) :
  listener w = Some snap -> isLoading snap = true ->
  env (CameraComponent.handle w Interaction) = env w /\
  inflight (CameraComponent.handle w Interaction) = inflight w.
Proof.
  intros Hl Hld. unfold CameraComponent.handle. rewrite Hl.
  unfold CameraComponent.handleUserInteraction, dispatch, CameraComponent.unlisten.
  rewrite Hld, andb_false_r. cbn [fst snd opt_list env inflight andb].
  rewrite app_nil_r. split; [|reflexivity].
  destruct (mounted w); [apply commit_same; reflexivity|reflexivity].
Qed.

(** C6, on the code: the Switch button is not guarded.  With a session
    active, click Switch and, before the host has settled the request, click
    Switch again.  At the second click isLoading is true and one request is
    in flight; the second click calls stop() on the track and issues a second
    request, so two are in flight.  When the host grants both, the second
    stream starts while the track of the first is still live.  In src/App.tsx
    the two calls are in flight at the permission query first and then at
    getUserMedia. *)
Theorem C6_switch_while_loading_interleaves :
  let w1 := run CameraComponent.step
              [ClickStart; SettleStream 0 (Resolve 1); ClickSwitch]
              (CameraComponent.initial true) in
  let w2 := CameraComponent.step w1 ClickSwitch in
  let w3 := run CameraComponent.step
              [SettleStream 0 (Resolve 1); SettleStream 0 (Resolve 1)] w2 in
  let v1 := run SimpleCameraComponent.step
              [ClickStart; SettleQuery 0 (Status prompt); SettleStream 0 (Resolve 1);
               ClickSwitch]
              (SimpleCameraComponent.initial true) in
  let v2 := run SimpleCameraComponent.step
              [ClickSwitch; SettleQuery 0 (Status granted); SettleQuery 0 (Status granted)]
              v1 in
  let v3 := run SimpleCameraComponent.step
              [SettleStream 0 (Resolve 1); SettleStream 0 (Resolve 1)] v2 in
  (isLoading (st (env w1)) = true /\
   inflight w1 = [AwaitStream] /\
   inflight w2 = [AwaitStream; AwaitStream] /\
   log (host (env w2)) =
     Request (CameraComponent.getConstraints environment) :: Stop 0 ::
     log (host (env w1)) /\
   exclusive (log (host (env w3))) = false) /\
  (isLoading (st (env v1)) = true /\
   List.length (inflight v1) = 1 /\
   inflight v2 = [AwaitStream; AwaitStream] /\
   log (host (env v2)) =
     Request (FacingConstraints environment false) :: Disable 0 :: Stop 0 ::
     Request (FacingConstraints user false) :: Disable 0 :: Stop 0 ::
     Query :: log (host (env v1)) /\
   exclusive (log (host (env v3))) = false).
Proof. vm_compute. repeat split. Qed.

(** ** Failed calls *)


Ltac solve_live :=
  cbn [live];
  first [ apply incl_refl
        | apply live_stopLog_incl
        | eapply incl_tran; [apply live_stopLog_incl | cbn [live]; apply incl_refl]
        | reflexivity
        | let Hl := fresh "Hl" in
          intros; intro Hl; cbn [live] in Hl;
          try apply live_stopLog in Hl; tauto ].








(** ** Teardown and ended sessions *)

Section Released.

Variables (w : World) (s : MediaStream) (t : TrackId).
Hypothesis Hmounted : mounted w = true.
Hypothesis Hheld : stream (st (env w)) = Some s.
Hypothesis Htrack : In t (getTracks s).

Lemma cleanup_releases (e : Env) :
  ~ In t (live (log (host (cleanup (Some s) e)))).
Proof.
  unfold cleanup. rewrite forEach_stop_log. cbn.
  intros Hl. apply live_stopLog in Hl. tauto.
Qed.

Lemma unmount_releases : ~ In t (live (log (host (env (unmount w))))).
Proof.
  unfold unmount. rewrite Hmounted, Hheld. cbn [env host].
  apply cleanup_releases.
Qed.

Lemma unmount2_releases :
  ~ In t (live (log (host (env (SimpleCameraComponent2.unmount2 w))))).
Proof.
  unfold SimpleCameraComponent2.unmount2. rewrite Hmounted, Hheld.
  cbn [env host stream initialState]. unfold andThen.
  apply cleanup_releases.
Qed.









End Released.

(** ** Settlements between two renders *)




(** One settlement between two renders is the step of the event. *)
Lemma settleTogether_one (w : World) (ev : Event) :
  (CameraComponent.continuation w ev <> None ->
   CameraComponent.settleTogether [ev] w = CameraComponent.step w ev) /\
  (SimpleCameraComponent.continuation w ev <> None ->
   SimpleCameraComponent.settleTogether [ev] w = SimpleCameraComponent.step w ev) /\
  (SimpleCameraComponent2.continuation w ev <> None ->
   SimpleCameraComponent2.settleTogether [ev] w = SimpleCameraComponent2.step w ev).
Proof.
  unfold CameraComponent.settleTogether, SimpleCameraComponent.settleTogether,
    SimpleCameraComponent2.settleTogether, together,
    CameraComponent.step, CameraComponent.handle,
    SimpleCameraComponent.step, SimpleCameraComponent2.step,
    CameraComponent.continuation, SimpleCameraComponent.continuation,
    SimpleCameraComponent2.continuation.
  cbn [fold_left].
  destruct ev as [| | | |p|p|i q|i r|i ok|]; repeat split; intros Hk;
    try (elim Hk; reflexivity).
  all: try (destruct (nth_error (inflight w) _) as [[]|];
            try (elim Hk; reflexivity)).
  all: unfold rendered, resumed, dispatch, SimpleCameraComponent2.dispatch2, take;
    cbn [env mounted inflight listener st];
    destruct (mounted w); reflexivity.
Qed.


Section ReleasedTogether.

Variables (w : World) (s : MediaStream) (t : TrackId).
Hypothesis Hmounted : mounted w = true.
Hypothesis Hheld : stream (st (env w)) = Some s.
Hypothesis Htrack : In t (getTracks s).




End ReleasedTogether.






(** ** One session at a time *)

Lemma exclusive_split (l : list HostEvent) :
  exclusive l = true ->
  forall pre ev older, l = pre ++ ev :: older ->
  (exists c, ev = Request c) \/ (exists ms, ev = Grant ms) ->
  live older = [].
Proof.
  intros Hex pre. revert l Hex.
  induction pre as [|x pre IH]; intros l Hex ev older -> Hev.
  - cbn in Hex. destruct Hev as [[c ->]|[ms ->]];
      apply andb_prop in Hex; destruct Hex as [Hn _];
      destruct (live older); [reflexivity|discriminate|reflexivity|discriminate].
  - apply (IH (pre ++ ev :: older)) with (ev := ev); [|reflexivity|exact Hev].
    cbn in Hex. destruct x; try exact Hex.
    all: apply andb_prop in Hex; tauto.
Qed.

Lemma holds_only_commit (before : State) (e : Env) :
  holds_only e -> holds_only (commit before e).
Proof.
  intros [Hex Hin]. split.
  - now rewrite exclusive_commit.
  - rewrite st_commit. eapply incl_tran; [apply live_commit_incl|exact Hin].
Qed.

Lemma holds_only_same (e e' : Env) :
  host e' = host e -> stream (st e') = stream (st e) ->
  holds_only e -> holds_only e'.
Proof. unfold holds_only. intros -> ->. tauto. Qed.

Ltac past_commit :=
  first [ apply holds_only_commit
        | match goal with
          | |- holds_only ?E =>
              match E with
              | context [commit ?b ?X] =>
                  apply (holds_only_same (commit b X));
                  [reflexivity | reflexivity | apply holds_only_commit]
              end
          end
        | idtac ].

Lemma holds_only_initial (cam : bool) : holds_only (initialEnv cam).
Proof. split; [reflexivity|apply incl_refl]. Qed.

(** The tracks still live are among those of the held stream, so stopping
    that stream leaves none. *)
Ltac none_live Hin :=
  cbn [tracks_of] in Hin;
  try (apply incl_l_nil in Hin);
  unfold holds_only; eval_env;
  cbn [exclusive live is_nil tracks_of andb];
  repeat match goal with
         | |- context [live (stopLog ?d ?l ?older)] =>
             rewrite (live_stopLog_nil d l older) by exact Hin
         end;
  try rewrite Hin;
  stops_away;
  cbn [exclusive live is_nil tracks_of andb app];
  try rewrite app_nil_r.

Ltac inv_done Hex Hin :=
  split; [ first [exact Hex | reflexivity]
         | first [exact Hin | apply incl_refl | apply incl_nil_l] ].

Lemma CameraComponent_acquire_holds (e : Env) (r1 r2 : StreamResult) :
  holds_only e -> holds_only (CameraComponent.acquire r1 r2 e).
Proof.
  intros [Hex Hin]. open_env e; destruct cam.
  all: camera_cases r1 r2.
  all: unfold CameraComponent.acquire; turns; past_commit.
  all: none_live Hin; inv_done Hex Hin.
Qed.

Lemma CameraComponent_switchFacing_holds (e : Env) (r1 r2 : StreamResult) :
  holds_only e -> holds_only (CameraComponent.switchFacing r1 r2 e).
Proof.
  intros [Hex Hin]. open_env e; destruct cam, act.
  all: camera_cases r1 r2.
  all: unfold CameraComponent.switchFacing; turns; past_commit.
  all: none_live Hin; inv_done Hex Hin.
Qed.

Lemma CameraComponent_release_holds (e : Env) :
  holds_only e -> holds_only (CameraComponent.release e).
Proof.
  intros [Hex Hin]. unfold CameraComponent.release. apply holds_only_commit.
  open_env e.
  all: unfold_handlers; eval_env; stops_to_log.
  all: none_live Hin; inv_done Hex Hin.
Qed.

Lemma SimpleCameraComponent_acquire_holds
    (e : Env) (q : QueryResult) (r : StreamResult) (ok : bool) :
  holds_only e -> holds_only (SimpleCameraComponent.acquire q r ok e).
Proof.
  intros [Hex Hin]. open_env e; destruct cam.
  all: simple_cases q r ok.
  all: unfold SimpleCameraComponent.acquire; turns; past_commit.
  all: none_live Hin; inv_done Hex Hin.
Qed.

Lemma SimpleCameraComponent_switchFacing_holds
    (e : Env) (q : QueryResult) (r : StreamResult) (ok : bool) :
  holds_only e -> holds_only (SimpleCameraComponent.switchFacing q r ok e).
Proof.
  intros [Hex Hin]. open_env e; destruct cam, act.
  all: simple_cases q r ok.
  all: unfold SimpleCameraComponent.switchFacing; turns; past_commit.
  all: none_live Hin; inv_done Hex Hin.
Qed.

Lemma SimpleCameraComponent_release_holds (e : Env) :
  holds_only e -> holds_only (SimpleCameraComponent.release e).
Proof.
  intros [Hex Hin]. unfold SimpleCameraComponent.release. apply holds_only_commit.
  open_env e.
  all: unfold_handlers; eval_env; stops_to_log.
  all: none_live Hin; inv_done Hex Hin.
Qed.

Lemma CameraComponent_run_holds (ops : list CameraComponent.Op) (e : Env) :
  holds_only e -> holds_only (fold_left CameraComponent.perform ops e).
Proof.
  revert e. induction ops as [|o ops IH]; intros e He; [exact He|].
  cbn [fold_left]. apply IH. destruct o as [r1 r2| |r1 r2]; cbn [CameraComponent.perform].
  - now apply CameraComponent_acquire_holds.
  - now apply CameraComponent_release_holds.
  - now apply CameraComponent_switchFacing_holds.
Qed.

Lemma SimpleCameraComponent_run_holds (ops : list SimpleCameraComponent.Op) (e : Env) :
  holds_only e -> holds_only (fold_left SimpleCameraComponent.perform ops e).
Proof.
  revert e. induction ops as [|o ops IH]; intros e He; [exact He|].
  cbn [fold_left]. apply IH.
  destruct o as [q r ok| |q r ok]; cbn [SimpleCameraComponent.perform].
  - now apply SimpleCameraComponent_acquire_holds.
  - now apply SimpleCameraComponent_release_holds.
  - now apply SimpleCameraComponent_switchFacing_holds.
Qed.

(** X18. Calls that do not overlap hold one session at a time.  Start from
    a fresh component and make any sequence of acquire, release and
    switchFacing calls, each made through the handlers of the current render
    and each settled (whatever the host answers) before the next is made.
    Then at every getUserMedia call in the history no track was live (the
    tracks of a held stream had all been stopped before the request went
    out), at every moment the host handed out a stream no track was live, and
    the tracks live at the end all belong to the one stream the component
    holds.  This holds for CameraComponent and for SimpleCameraComponent of
    src/App.tsx. *)
Theorem sequential_calls_one_session
    (cam : bool) (ops : list CameraComponent.Op)
    (ops' : list SimpleCameraComponent.Op) :
  let b := fold_left CameraComponent.perform ops (initialEnv cam) in
  let a := fold_left SimpleCameraComponent.perform ops' (initialEnv cam) in
  ((forall pre c older,
      log (host b) = pre ++ Request c :: older -> live older = []) /\
   (forall pre ms older,
      log (host b) = pre ++ Grant ms :: older -> live older = []) /\
   incl (live (log (host b))) (tracks_of (stream (st b)))) /\
  ((forall pre c older,
      log (host a) = pre ++ Request c :: older -> live older = []) /\
   (forall pre ms older,
      log (host a) = pre ++ Grant ms :: older -> live older = []) /\
   incl (live (log (host a))) (tracks_of (stream (st a)))).
Proof.
  intros b a.
  destruct (CameraComponent_run_holds ops (initialEnv cam) (holds_only_initial cam))
    as [Hexb Hinb].
  destruct (SimpleCameraComponent_run_holds ops' (initialEnv cam) (holds_only_initial cam))
    as [Hexa Hina].
  split; (split; [|split]).
  - intros pre c older Hl. apply (exclusive_split _ Hexb pre (Request c) older Hl).
    left. now exists c.
  - intros pre ms older Hl. apply (exclusive_split _ Hexb pre (Grant ms) older Hl).
    right. now exists ms.
  - exact Hinb.
  - intros pre c older Hl. apply (exclusive_split _ Hexa pre (Request c) older Hl).
    left. now exists c.
  - intros pre ms older Hl. apply (exclusive_split _ Hexa pre (Grant ms) older Hl).
    right. now exists ms.
  - exact Hina.
Qed.


(** ** Events that do not overlap are the sequential calls *)

Lemma dispatch_turn (f : Segment) (w : World) :
  mounted w = true ->
  env (dispatch f w) = fst (turn f (env w)) /\
  inflight (dispatch f w) = inflight w ++ opt_list (snd (turn f (env w))) /\
  mounted (dispatch f w) = true.
Proof. intros Hm. unfold dispatch, turn. rewrite Hm. repeat split. Qed.

Lemma relisten_same (before : State) (w : World) :
  same_world (CameraComponent.relisten before w) w.
Proof.
  unfold CameraComponent.relisten, same_world.
  destruct (mounted w && _); repeat split.
Qed.

Section CameraSteps.

Variable w : World.
Hypothesis Hm : mounted w = true.

Lemma camera_settle_stream (i : nat) (r : StreamResult) :
  nth_error (inflight w) i = Some AwaitStream ->
  let x := turn (CameraComponent.startCamera_resumed r) (env w) in
  env (CameraComponent.step w (SettleStream i r)) = fst x /\
  inflight (CameraComponent.step w (SettleStream i r)) =
    remove_nth i (inflight w) ++ opt_list (snd x) /\
  mounted (CameraComponent.step w (SettleStream i r)) = true.
Proof.
  intros Hp x. unfold CameraComponent.step.
  destruct (relisten_same (st (env w)) (CameraComponent.handle w (SettleStream i r)))
    as (-> & -> & ->).
  unfold CameraComponent.handle. rewrite Hp.
  apply (dispatch_turn _ (take i w)). exact Hm.
Qed.



Lemma camera_click (ev : Event) (f : Segment) :
  CameraComponent.handle w ev = dispatch f w ->
  let x := turn f (env w) in
  env (CameraComponent.step w ev) = fst x /\
  inflight (CameraComponent.step w ev) = inflight w ++ opt_list (snd x) /\
  mounted (CameraComponent.step w ev) = true.
Proof.
  intros Hh x. unfold CameraComponent.step.
  destruct (relisten_same (st (env w)) (CameraComponent.handle w ev)) as (-> & -> & ->).
  rewrite Hh. now apply dispatch_turn.
Qed.

End CameraSteps.






Section SimpleSteps.

Variable w : World.
Hypothesis Hm : mounted w = true.

Lemma simple_settle_query (i : nat) (q : QueryResult) (snap : State) :
  nth_error (inflight w) i = Some (AwaitQuery snap) ->
  let x := turn (SimpleCameraComponent.startCamera_queried snap q) (env w) in
  env (SimpleCameraComponent.step w (SettleQuery i q)) = fst x /\
  inflight (SimpleCameraComponent.step w (SettleQuery i q)) =
    remove_nth i (inflight w) ++ opt_list (snd x) /\
  mounted (SimpleCameraComponent.step w (SettleQuery i q)) = true.
Proof.
  intros Hp x. unfold SimpleCameraComponent.step. rewrite Hp.
  apply (dispatch_turn _ (take i w)). exact Hm.
Qed.

Lemma simple_settle_stream (i : nat) (r : StreamResult) :
  nth_error (inflight w) i = Some AwaitStream ->
  let x := turn (SimpleCameraComponent.startCamera_resumed r) (env w) in
  env (SimpleCameraComponent.step w (SettleStream i r)) = fst x /\
  inflight (SimpleCameraComponent.step w (SettleStream i r)) =
    remove_nth i (inflight w) ++ opt_list (snd x) /\
  mounted (SimpleCameraComponent.step w (SettleStream i r)) = true.
Proof.
  intros Hp x. unfold SimpleCameraComponent.step. rewrite Hp.
  apply (dispatch_turn _ (take i w)). exact Hm.
Qed.

Lemma simple_settle_play (i : nat) (ok : bool) :
  nth_error (inflight w) i = Some AwaitPlay ->
  let x := turn (SimpleCameraComponent.startCamera_played ok) (env w) in
  env (SimpleCameraComponent.step w (SettlePlay i ok)) = fst x /\
  inflight (SimpleCameraComponent.step w (SettlePlay i ok)) =
    remove_nth i (inflight w) ++ opt_list (snd x) /\
  mounted (SimpleCameraComponent.step w (SettlePlay i ok)) = true.
Proof.
  intros Hp x. unfold SimpleCameraComponent.step. rewrite Hp.
  apply (dispatch_turn _ (take i w)). exact Hm.
Qed.

Lemma simple_settle_nothing (i : nat) (q : QueryResult) (r : StreamResult) (ok : bool) :
  nth_error (inflight w) i = None ->
  SimpleCameraComponent.step w (SettleQuery i q) = w /\
  SimpleCameraComponent.step w (SettleStream i r) = w /\
  SimpleCameraComponent.step w (SettlePlay i ok) = w.
Proof. intros Hp. unfold SimpleCameraComponent.step. rewrite Hp. repeat split. Qed.

End SimpleSteps.

(** What the segments of src/App.tsx leave pending. *)
Lemma simple_pending (snap : State) (q : QueryResult) (r : StreamResult) (ok : bool)
    (e : Env) :
  (snd (SimpleCameraComponent.startCamera_queried snap q e) = None \/
   snd (SimpleCameraComponent.startCamera_queried snap q e) = Some AwaitStream) /\
  (snd (SimpleCameraComponent.startCamera_resumed r e) = None \/
   snd (SimpleCameraComponent.startCamera_resumed r e) = Some AwaitPlay) /\
  snd (SimpleCameraComponent.startCamera_played ok e) = None.
Proof.
  split; [|split].
  - destruct q as [[| |]|name]; [right|left|right|left]; reflexivity.
  - destruct r as [n|name]; [|left; reflexivity].
    cbn [SimpleCameraComponent.startCamera_resumed snd].
    destruct (videoRef e); [right|left]; reflexivity.
  - reflexivity.
Qed.

Lemma simple_settle_run (w : World) (snap : State)
    (q : QueryResult) (r : StreamResult) (ok : bool) :
  mounted w = true -> inflight w = [AwaitQuery snap] ->
  let w' := run SimpleCameraComponent.step
              [SettleQuery 0 q; SettleStream 0 r; SettlePlay 0 ok] w in
  env w' = SimpleCameraComponent.settled q r ok (env w, Some (AwaitQuery snap)) /\
  inflight w' = [].
Proof.
  intros Hm Hi. cbn [run fold_left].
  destruct (simple_settle_query w Hm 0 q snap) as (He1 & Hi1 & Hm1);
    [rewrite Hi; reflexivity|].
  rewrite Hi in Hi1. cbn [remove_nth app] in Hi1.
  unfold SimpleCameraComponent.settled.
  set (w1 := SimpleCameraComponent.step w (SettleQuery 0 q)) in *.
  destruct (turn (SimpleCameraComponent.startCamera_queried snap q) (env w))
    as [e2 p2] eqn:E2.
  assert (Hp2 : p2 = None \/ p2 = Some AwaitStream).
  { destruct (proj1 (simple_pending snap q r ok (env w))) as [H|H];
      unfold turn in E2; injection E2 as _ <-; [left|right]; exact H. }
  cbn [fst snd] in He1, Hi1.
  destruct Hp2 as [-> | ->]; cbn [opt_list] in Hi1.
  - destruct (simple_settle_nothing w1 0 q r ok) as (_ & -> & _);
      [rewrite Hi1; reflexivity|].
    destruct (simple_settle_nothing w1 0 q r ok) as (_ & _ & ->);
      [rewrite Hi1; reflexivity|].
    rewrite He1, Hi1. split; reflexivity.
  - destruct (simple_settle_stream w1 Hm1 0 r) as (He2 & Hi2 & Hm2);
      [rewrite Hi1; reflexivity|].
    rewrite Hi1 in Hi2. cbn [remove_nth app] in Hi2. rewrite He1 in He2, Hi2.
    set (w2 := SimpleCameraComponent.step w1 (SettleStream 0 r)) in *.
    destruct (turn (SimpleCameraComponent.startCamera_resumed r) e2) as [e3 p3] eqn:E3.
    assert (Hp3 : p3 = None \/ p3 = Some AwaitPlay).
    { destruct (proj1 (proj2 (simple_pending snap q r ok e2))) as [H|H];
        unfold turn in E3; injection E3 as _ <-; [left|right]; exact H. }
    cbn [fst snd] in He2, Hi2.
    destruct Hp3 as [-> | ->]; cbn [opt_list] in Hi2.
    + destruct (simple_settle_nothing w2 0 q r ok) as (_ & _ & ->);
        [rewrite Hi2; reflexivity|].
      rewrite He2, Hi2. split; reflexivity.
    + destruct (simple_settle_play w2 Hm2 0 ok) as (He3 & Hi3 & _);
        [rewrite Hi2; reflexivity|].
      rewrite He3, Hi3, Hi2, He2. cbn [remove_nth app].
      destruct (turn (SimpleCameraComponent.startCamera_played ok) e3) as [e4 p4] eqn:E4.
      unfold turn in E4. injection E4 as _ <-. split; reflexivity.
Qed.

(** X8. in SimpleCameraComponent of src/App.tsx, on a mounted component with
    nothing in flight, clicking Start (or Switch on an active session) and
    letting the permission query, the request and play() settle before
    anything else happens gives the environment of the sequential call, with
    nothing left in flight; Stop is the sequential release. *)
Theorem SimpleCameraComponent_events_are_calls
    (w : World) (q : QueryResult) (r : StreamResult) (ok : bool) :
  mounted w = true ->
  inflight w = [] ->
  hasCamera (host (env w)) = true ->
  (isActive (st (env w)) = false -> isLoading (st (env w)) = false ->
   let w' := run SimpleCameraComponent.step
               [ClickStart; SettleQuery 0 q; SettleStream 0 r; SettlePlay 0 ok] w in
   env w' = SimpleCameraComponent.acquire q r ok (env w) /\ inflight w' = []) /\
  (isActive (st (env w)) = true ->
   let w' := run SimpleCameraComponent.step
               [ClickSwitch; SettleQuery 0 q; SettleStream 0 r; SettlePlay 0 ok] w in
   env w' = SimpleCameraComponent.switchFacing q r ok (env w) /\ inflight w' = []) /\
  (isActive (st (env w)) = true ->
   env (SimpleCameraComponent.step w ClickStop) = SimpleCameraComponent.release (env w) /\
   inflight (SimpleCameraComponent.step w ClickStop) = []).
Proof.
  intros Hm Hi Hcam. split; [|split].
  - intros Ha Hl w'. subst w'.
    change (run SimpleCameraComponent.step
              [ClickStart; SettleQuery 0 q; SettleStream 0 r; SettlePlay 0 ok] w)
      with (run SimpleCameraComponent.step
              [SettleQuery 0 q; SettleStream 0 r; SettlePlay 0 ok]
              (SimpleCameraComponent.step w ClickStart)).
    assert (Hs : SimpleCameraComponent.step w ClickStart =
                 dispatch (SimpleCameraComponent.startCamera (st (env w))) w).
    { unfold SimpleCameraComponent.step, SimpleCameraComponent.canStart.
      rewrite Hm, Hcam, Ha, Hl. reflexivity. }
    rewrite Hs.
    destruct (dispatch_turn (SimpleCameraComponent.startCamera (st (env w))) w Hm)
      as (He & Hi1 & Hm1).
    assert (Hp : turn (SimpleCameraComponent.startCamera (st (env w))) (env w) =
                 (fst (turn (SimpleCameraComponent.startCamera (st (env w))) (env w)),
                  Some (AwaitQuery (st (env w))))).
    { unfold turn, SimpleCameraComponent.startCamera. rewrite Hcam. reflexivity. }
    rewrite Hi, Hp in Hi1. cbn [app opt_list snd] in Hi1.
    destruct (simple_settle_run _ (st (env w)) q r ok Hm1 Hi1) as (-> & ->).
    split; [|reflexivity]. rewrite He. unfold SimpleCameraComponent.acquire.
    rewrite Hp at 2. reflexivity.
  - intros Ha w'. subst w'.
    change (run SimpleCameraComponent.step
              [ClickSwitch; SettleQuery 0 q; SettleStream 0 r; SettlePlay 0 ok] w)
      with (run SimpleCameraComponent.step
              [SettleQuery 0 q; SettleStream 0 r; SettlePlay 0 ok]
              (SimpleCameraComponent.step w ClickSwitch)).
    assert (Hs : SimpleCameraComponent.step w ClickSwitch =
                 dispatch (SimpleCameraComponent.switchCamera (st (env w))) w).
    { unfold SimpleCameraComponent.step, SimpleCameraComponent.canSwitch.
      rewrite Hm, Hcam, Ha. reflexivity. }
    rewrite Hs.
    destruct (dispatch_turn (SimpleCameraComponent.switchCamera (st (env w))) w Hm)
      as (He & Hi1 & Hm1).
    assert (Hp : turn (SimpleCameraComponent.switchCamera (st (env w))) (env w) =
                 (fst (turn (SimpleCameraComponent.switchCamera (st (env w))) (env w)),
                  Some (AwaitQuery (st (env w))))).
    { unfold turn, SimpleCameraComponent.switchCamera, SimpleCameraComponent.startCamera.
      rewrite Ha. cbn [snd host setFacingMode modState]. rewrite Hcam. reflexivity. }
    rewrite Hi, Hp in Hi1. cbn [app opt_list snd] in Hi1.
    destruct (simple_settle_run _ (st (env w)) q r ok Hm1 Hi1) as (-> & ->).
    split; [|reflexivity]. rewrite He. unfold SimpleCameraComponent.switchFacing.
    rewrite Hp at 2. reflexivity.
  - intros Ha.
    assert (Hs : SimpleCameraComponent.step w ClickStop =
                 dispatch (done (SimpleCameraComponent.stopCamera (st (env w)))) w).
    { unfold SimpleCameraComponent.step, SimpleCameraComponent.canStop.
      rewrite Hm, Hcam, Ha. reflexivity. }
    rewrite Hs.
    destruct (dispatch_turn (done (SimpleCameraComponent.stopCamera (st (env w)))) w Hm)
      as (He & Hi1 & _).
    rewrite He, Hi1, Hi. split; reflexivity.
Qed.

Lemma SimpleCameraComponent_events_are_calls_witness :
  mounted (SimpleCameraComponent.initial true) = true /\
  inflight (SimpleCameraComponent.initial true) = [] /\
  hasCamera (host (env (SimpleCameraComponent.initial true))) = true /\
  env (run SimpleCameraComponent.step
         [ClickStart; SettleQuery 0 (Status prompt); SettleStream 0 (Resolve 1);
          SettlePlay 0 true] (SimpleCameraComponent.initial true)) =
  SimpleCameraComponent.acquire (Status prompt) (Resolve 1) true
    (env (SimpleCameraComponent.initial true)).
Proof.
  split; [reflexivity|]. split; [reflexivity|]. split; [reflexivity|].
  exact (proj1 (proj1 (SimpleCameraComponent_events_are_calls
                         (SimpleCameraComponent.initial true)
                         (Status prompt) (Resolve 1) true
                         eq_refl eq_refl eq_refl) eq_refl eq_refl)).
Defined.


(** ** The permission tracker of CameraComponent *)

Ltac open_world w :=
  destruct w as [[[[?s|] ?act ?err ?fm ?ld ?pm] [[?src]|] [?cam ?fr ?lg]] ?inf ?lis ?m];
  cbn [env inflight listener mounted st videoRef host stream isActive error
       facingMode isLoading permissions hasCamera fresh log] in *.

(** X9. when the permission query made at mount resolves, its result is
    stored.  If it is 'granted' the startCamera of the first render runs: it
    asks for facing 'user' and stops no track, whatever the component holds
    and whichever facing is stored by then.  Otherwise the host is not called
    and nothing is put in flight. *)
Theorem CameraComponent_mount_query (w : World) (p : PermissionState) :
  mounted w = true ->
  hasCamera (host (env w)) = true ->
  let w' := CameraComponent.step w (PermissionQueried p) in
  permissions (st (env w')) = p /\
  stream (st (env w')) = stream (st (env w)) /\
  isActive (st (env w')) = isActive (st (env w)) /\
  facingMode (st (env w')) = facingMode (st (env w)) /\
  match p with
  | granted =>
      log (host (env w')) =
        Request (CameraComponent.getConstraints user) :: log (host (env w)) /\
      inflight w' = inflight w ++ [AwaitStream] /\
      isLoading (st (env w')) = true
  | _ =>
      log (host (env w')) = log (host (env w)) /\
      inflight w' = inflight w /\
      isLoading (st (env w')) = isLoading (st (env w))
  end.
Proof.
  intros Hm Hcam w'. subst w'.
  destruct (camera_click w Hm (PermissionQueried p) (CameraComponent.onPermissionQueried p)
              eq_refl) as (-> & -> & _).
  open_world w; subst m cam.
  all: destruct p; unfold CameraComponent.onPermissionQueried, initialState.
  all: turns; cbn [opt_list]; rewrite ?app_nil_r; repeat split.
Qed.

Lemma CameraComponent_mount_query_witness :
  mounted activeWorld = true /\
  hasCamera (host (env activeWorld)) = true /\
  log (host (env (CameraComponent.step activeWorld (PermissionQueried granted)))) =
  Request (CameraComponent.getConstraints user) :: log (host (env activeWorld)).
Proof.
  split; [reflexivity|]. split; [reflexivity|].
  exact (proj1 (proj2 (proj2 (proj2 (proj2
           (CameraComponent_mount_query activeWorld granted eq_refl eq_refl)))))).
Defined.

Lemma same_deps_refl (s : State) : CameraComponent.same_deps s s = true.
Proof.
  unfold CameraComponent.same_deps. rewrite !Bool.eqb_reflx.
  destruct (permissions s); reflexivity.
Qed.

(** X10. The document-level interaction handler of CameraComponent, on a
    mounted component.  When the render it was registered in was active,
    loading or denied, an interaction changes nothing and only removes the
    listener.  Otherwise it runs the startCamera of that render.  On a host
    with a camera, stop() is called on the tracks of that render's stream, the
    request {facingMode: that render's facing, width 1280/1920, height
    720/1080, aspectRatio 16/9, audio: false} goes out, isLoading is true
    afterwards, and the listener is registered again over the new state when
    that made isLoading change (it stays removed when the current state was
    loading already).  On a host without camera only the message 'Camera not
    supported on this device' is set, and the listener stays removed. *)
Theorem CameraComponent_interaction (w : World) (snap : State) :
  mounted w = true ->
  listener w = Some snap ->
  let w' := CameraComponent.step w Interaction in
  let blocked := isActive snap || isLoading snap ||
                 match permissions snap with denied => true | _ => false end in
  (blocked = true ->
   env w' = env w /\ inflight w' = inflight w /\ listener w' = None) /\
  (blocked = false -> hasCamera (host (env w)) = true ->
   log (host (env w')) =
     Request (CameraConstraints (facingMode snap) 1280 1920 720 1080 16 9 false) ::
     stopLog false (tracks_of (stream snap)) (log (host (env w))) /\
   inflight w' = inflight w ++ [AwaitStream] /\
   isLoading (st (env w')) = true /\
   listener w' = if isLoading (st (env w)) then None else Some (st (env w'))) /\
  (blocked = false -> hasCamera (host (env w)) = false ->
   error (st (env w')) = "Camera not supported on this device" /\
   log (host (env w')) = log (host (env w)) /\
   inflight w' = inflight w /\
   listener w' = None).
Proof.
  intros Hm Hl w' blocked. subst w' blocked.
  unfold CameraComponent.step, CameraComponent.handle. rewrite Hl.
  unfold CameraComponent.relisten, CameraComponent.unlisten, dispatch.
  rewrite Hm. cbn [env inflight listener mounted andb].
  unfold CameraComponent.handleUserInteraction.
  destruct snap as [[s|] [] er f [] [| |]]; cbn [negb andb orb isActive isLoading
    permissions stream facingMode tracks_of stopLog].
  all: split; [|split]; intros Hb; try discriminate Hb; clear Hb.
  all: cbn [fst snd opt_list]; rewrite ?app_nil_r.
  all: try (rewrite commit_same by reflexivity; rewrite same_deps_refl;
            cbn [negb env inflight listener]; repeat split).
  all: intros Hcam; open_world w; subst m cam.
  all: unfold CameraComponent.same_deps, CameraComponent.getConstraints; turns.
  all: same_commits.
  all: cbn [isActive isLoading st env Bool.eqb andb negb listener inflight host log
            error].
  all: destruct act, ld, pm;
       cbn [Bool.eqb andb negb listener inflight env host log st isLoading error];
       rewrite ?app_nil_r; repeat split.
Qed.

Lemma CameraComponent_interaction_witness :
  mounted (CameraComponent.initial true) = true /\
  listener (CameraComponent.initial true) = Some initialState /\
  requests (log (host (env (CameraComponent.step (CameraComponent.initial true)
                              Interaction)))) =
    [CameraConstraints user 1280 1920 720 1080 16 9 false] /\
  listener (CameraComponent.step loadingWorld Interaction) = None.
Proof.
  split; [reflexivity|]. split; [reflexivity|].
  pose proof (CameraComponent_interaction (CameraComponent.initial true)
                initialState eq_refl eq_refl) as Hidle.
  pose proof (CameraComponent_interaction loadingWorld
                (st (env loadingWorld)) eq_refl eq_refl) as Hloading.
  split.
  - rewrite (proj1 (proj1 (proj2 Hidle) eq_refl eq_refl)). reflexivity.
  - exact (proj2 (proj2 (proj1 Hloading eq_refl))).
Defined.



(** ** Grants that arrive late *)

Lemma cleanup_keeps_fresh (old : option MediaStream) (e : Env) :
  fresh (host (cleanup old e)) = fresh (host e).
Proof.
  unfold cleanup. destruct old; [|reflexivity].
  rewrite forEach_stop_log. reflexivity.
Qed.

Lemma granted_host (f : Env -> Env) (n : nat) (e : Env) :
  (forall x, host (f x) = host x) ->
  forall t, In t (seq (fresh (host e)) n) ->
  In t (live (log (host (f (grant n e))))).
Proof.
  intros Hf t Ht. rewrite Hf. cbn. apply in_or_app. now left.
Qed.

Lemma relisten_unmounted (before : State) (w : World) :
  mounted w = false -> CameraComponent.relisten before w = w.
Proof. intros H. unfold CameraComponent.relisten. now rewrite H. Qed.

Lemma camera_step_unmount (w : World) : CameraComponent.step w Unmount = unmount w.
Proof.
  unfold CameraComponent.step. apply relisten_unmounted.
  cbn [CameraComponent.handle]. unfold unmount.
  destruct (mounted w) eqn:E; [reflexivity|exact E].
Qed.

Lemma camera_late_settle (w : World) (i : nat) (r : StreamResult) :
  mounted w = false -> nth_error (inflight w) i = Some AwaitStream ->
  CameraComponent.step w (SettleStream i r) =
  dispatch (CameraComponent.startCamera_resumed r) (take i w).
Proof.
  intros Hm Hp. unfold CameraComponent.step. cbn [CameraComponent.handle].
  rewrite Hp. apply relisten_unmounted. exact Hm.
Qed.

Ltac late_grant Ht :=
  unfold dispatch, SimpleCameraComponent2.dispatch2, take, unmount,
    SimpleCameraComponent2.unmount2;
  match goal with H : mounted _ = true |- _ => rewrite H end;
  cbn [mounted env inflight];
  split; [reflexivity|];
  intros t Ht;
  unfold CameraComponent.startCamera_resumed, SimpleCameraComponent.startCamera_resumed,
    SimpleCameraComponent2.startCamera_resumed, done;
  cbn [fst host videoRef];
  eval_env; cbn [live]; apply in_or_app; left;
  unfold andThen; rewrite ?cleanup_keeps_fresh; exact Ht.

(** X11. there is no cancellation.  If a component is unmounted while a
    request is in flight and the host grants it afterwards, the state is not
    touched and the tracks of that stream stay live: nothing holds the stream
    that could ever stop them.  This is so in all three components. *)
Theorem grant_after_unmount_stays_live (w : World) (i n : nat) :
  mounted w = true ->
  nth_error (inflight w) i = Some AwaitStream ->
  let late step := step (step w Unmount) (SettleStream i (Resolve n)) in
  (st (env (late CameraComponent.step)) = st (env w) /\
   forall t, In t (seq (fresh (host (env w))) n) ->
             In t (live (log (host (env (late CameraComponent.step)))))) /\
  (st (env (late SimpleCameraComponent.step)) = st (env w) /\
   forall t, In t (seq (fresh (host (env w))) n) ->
             In t (live (log (host (env (late SimpleCameraComponent.step)))))) /\
  (st (env (late SimpleCameraComponent2.step)) = st (env w) /\
   forall t, In t (seq (fresh (host (env w))) n) ->
             In t (live (log (host (env (late SimpleCameraComponent2.step)))))).
Proof.
  intros Hm Hp late. subst late. cbv beta.
  assert (Hu : nth_error (inflight (unmount w)) i = Some AwaitStream).
  { unfold unmount. now rewrite Hm. }
  assert (Hu2 : nth_error (inflight (SimpleCameraComponent2.unmount2 w)) i
                = Some AwaitStream).
  { unfold SimpleCameraComponent2.unmount2. now rewrite Hm. }
  split; [|split].
  - rewrite camera_step_unmount.
    rewrite camera_late_settle; [|unfold unmount; now rewrite Hm|exact Hu].
    late_grant Ht.
  - cbn [SimpleCameraComponent.step]. rewrite Hu. late_grant Ht.
  - cbn [SimpleCameraComponent2.step]. rewrite Hu2. late_grant Ht.
Qed.

Lemma grant_after_unmount_stays_live_witness :
  mounted loadingWorld = true /\
  nth_error (inflight loadingWorld) 0 = Some AwaitStream /\
  In 0 (live (log (host (env
     (CameraComponent.step (CameraComponent.step loadingWorld Unmount)
        (SettleStream 0 (Resolve 1))))))).
Proof.
  split; [reflexivity|]. split; [reflexivity|].
  exact (proj2 (proj1 (grant_after_unmount_stays_live loadingWorld
                         0 1 eq_refl eq_refl)) 0 (or_introl eq_refl)).
Defined.

(** The render after Stop is evaluated before the grant is looked at. *)
Ltac stop_first :=
  match goal with
  | |- context [turn (done ?a) ?E] =>
      change (fst (turn (done a) E)) with (commit (st E) (a E))
  end;
  unfold_handlers; eval_env; stops_to_log; eval_env; eval_commit.

(** X12. Stop does not cancel a request in flight either.  With a session
    active and a request pending (a Switch was clicked), clicking Stop makes
    the session inactive, and when the host then grants the request the
    session is active again, holding the new stream, whose tracks are live. *)
Theorem grant_after_stop_reactivates (w : World) (i n : nat) :
  mounted w = true ->
  hasCamera (host (env w)) = true ->
  isActive (st (env w)) = true ->
  nth_error (inflight w) i = Some AwaitStream ->
  let late step := step (step w ClickStop) (SettleStream i (Resolve n)) in
  let ms := {| sid := fresh (host (env w));
               getTracks := seq (fresh (host (env w))) n |} in
  (isActive (st (env (CameraComponent.step w ClickStop))) = false /\
   isActive (st (env (late CameraComponent.step))) = true /\
   stream (st (env (late CameraComponent.step))) = Some ms /\
   incl (getTracks ms) (live (log (host (env (late CameraComponent.step)))))) /\
  (isActive (st (env (SimpleCameraComponent.step w ClickStop))) = false /\
   isActive (st (env (late SimpleCameraComponent.step))) = true /\
   stream (st (env (late SimpleCameraComponent.step))) = Some ms /\
   incl (getTracks ms) (live (log (host (env (late SimpleCameraComponent.step)))))).
Proof.
  intros Hm Hcam Ha Hp late ms. subst late ms. cbv beta.
  split.
  - destruct (camera_click w Hm ClickStop
                (done (CameraComponent.stopCamera (st (env w))))) as (He1 & Hi1 & Hm1).
    { unfold CameraComponent.handle, CameraComponent.canStop.
      rewrite Hm, Hcam, Ha. reflexivity. }
    cbn [done snd opt_list turn] in Hi1. rewrite app_nil_r in Hi1.
    destruct (camera_settle_stream _ Hm1 i (Resolve n)) as (He2 & _);
      [rewrite Hi1; exact Hp|].
    rewrite He2, He1. clear He1 He2 Hi1 Hm1 Hp.
    open_world w; subst m cam act.
    all: stop_first; turns; eval_commit.
    all: repeat split; cbn [live getTracks]; apply incl_appl, incl_refl.
  - assert (Hs : SimpleCameraComponent.step w ClickStop =
                 dispatch (done (SimpleCameraComponent.stopCamera (st (env w)))) w).
    { unfold SimpleCameraComponent.step, SimpleCameraComponent.canStop.
      rewrite Hm, Hcam, Ha. reflexivity. }
    rewrite Hs.
    destruct (dispatch_turn (done (SimpleCameraComponent.stopCamera (st (env w)))) w Hm)
      as (He1 & Hi1 & Hm1).
    cbn [done snd opt_list turn] in Hi1. rewrite app_nil_r in Hi1.
    destruct (simple_settle_stream _ Hm1 i (Resolve n)) as (He2 & _);
      [rewrite Hi1; exact Hp|].
    rewrite He2, He1. clear He1 He2 Hi1 Hm1 Hp Hs.
    open_world w; subst m cam act.
    all: stop_first; turns; eval_commit.
    all: repeat split; cbn [live getTracks]; apply incl_appl, incl_refl.
Qed.

Lemma grant_after_stop_reactivates_witness :
  mounted switchingWorld = true /\
  hasCamera (host (env switchingWorld)) = true /\
  isActive (st (env switchingWorld)) = true /\
  nth_error (inflight switchingWorld) 0 = Some AwaitStream /\
  isActive (st (env (CameraComponent.step
                       (CameraComponent.step switchingWorld ClickStop)
                       (SettleStream 0 (Resolve 1))))) = true.
Proof.
  split; [reflexivity|]. split; [reflexivity|]. split; [reflexivity|].
  split; [reflexivity|].
  exact (proj1 (proj2 (proj1 (grant_after_stop_reactivates switchingWorld 0 1
                                eq_refl eq_refl eq_refl eq_refl)))).
Defined.


(** ** The session flag and the stored stream *)

Section FlagAgrees.

Lemma flag_agrees_dispatch (f : Segment) (w w' : World) :
  env w' = env w -> mounted w' = mounted w ->
  (flag_agrees (env w) -> flag_agrees (fst (f (env w)))) ->
  flag_agrees (env w) -> flag_agrees (env (dispatch f w')).
Proof.
  intros He Hm Hf Hw. unfold dispatch. rewrite He. cbn [env].
  destruct (mounted w'); unfold flag_agrees in *.
  - rewrite st_commit. now apply Hf.
  - exact Hw.
Qed.

Lemma flag_agrees_dispatch2 (f : Segment) (w w' : World) :
  env w' = env w -> mounted w' = mounted w ->
  (flag_agrees (env w) -> flag_agrees (fst (f (env w)))) ->
  flag_agrees (env w) -> flag_agrees (env (SimpleCameraComponent2.dispatch2 f w')).
Proof.
  intros He Hm Hf Hw. unfold SimpleCameraComponent2.dispatch2. rewrite He. cbn [env].
  destruct (mounted w'); unfold flag_agrees in *.
  - unfold SimpleCameraComponent2.commit2.
    destruct (same_stream _ _); [now apply Hf|].
    unfold cleanup. destruct (stream (st (env w))); [|now apply Hf].
    rewrite forEach_stop_log. now apply Hf.
  - exact Hw.
Qed.

Ltac seg :=
  unfold flag_agrees; unfold_handlers;
  unfold CameraComponent.onPermissionQueried, CameraComponent.handleUserInteraction,
    SimpleCameraComponent2.startCamera, SimpleCameraComponent2.startCamera_resumed,
    SimpleCameraComponent2.stopCamera, CameraComponent.startCamera;
  eval_names; eval_env; stops_to_log; eval_env.

(** Segments that leave [stream] and [isActive] alone. *)
Lemma flag_startCamera_camera (snap : State) (e : Env) :
  flag_agrees e -> flag_agrees (fst (CameraComponent.startCamera snap e)).
Proof.
  destruct snap as [[s|] a er fm ld pm], e as [x v [[] fr lg]]; seg; exact (fun H => H).
Qed.

Lemma flag_startCamera_simple (snap : State) (e : Env) :
  flag_agrees e -> flag_agrees (fst (SimpleCameraComponent.startCamera snap e)).
Proof.
  destruct snap as [[s|] a er fm ld pm], e as [x v [[] fr lg]]; seg; exact (fun H => H).
Qed.

Lemma flag_resumed_camera (r : StreamResult) (e : Env) :
  flag_agrees e -> flag_agrees (fst (CameraComponent.startCamera_resumed r e)).
Proof.
  destruct r as [n|name]; [|by_name name; name_known].
  all: destruct e as [x [[src]|] h]; seg; use_tests; eval_env.
  all: first [reflexivity | exact (fun H => H)].
Qed.

Lemma flag_fallback_camera (r : StreamResult) (e : Env) :
  flag_agrees e -> flag_agrees (fst (CameraComponent.startCamera_fallback r e)).
Proof.
  destruct r as [n|name].
  all: destruct e as [x [[src]|] h]; seg.
  all: first [reflexivity | exact (fun H => H)].
Qed.

Lemma flag_queried_simple (snap : State) (q : QueryResult) (e : Env) :
  flag_agrees e -> flag_agrees (fst (SimpleCameraComponent.startCamera_queried snap q e)).
Proof.
  destruct q as [[| |]|name]; [| | |by_name name; name_known].
  all: destruct snap as [[s|] a er fm ld pm], e as [x v h]; seg; use_tests; eval_env.
  all: exact (fun H => H).
Qed.

Lemma flag_resumed_simple (r : StreamResult) (e : Env) :
  flag_agrees e -> flag_agrees (fst (SimpleCameraComponent.startCamera_resumed r e)).
Proof.
  destruct r as [n|name]; [|by_name name; name_known].
  all: destruct e as [x [[src]|] h]; seg; use_tests; eval_env.
  all: first [reflexivity | exact (fun H => H)].
Qed.

Lemma flag_played_simple (ok : bool) (e : Env) :
  flag_agrees e -> flag_agrees (fst (SimpleCameraComponent.startCamera_played ok e)).
Proof. destruct ok; seg; exact (fun H => H). Qed.

Lemma flag_resumed_2 (r : StreamResult) (e : Env) :
  flag_agrees e -> flag_agrees (fst (SimpleCameraComponent2.startCamera_resumed r e)).
Proof.
  destruct r as [n|name].
  all: destruct e as [x [[src]|] h]; seg.
  all: first [reflexivity | exact (fun H => H)].
Qed.

Lemma flag_startCamera_2 (e : Env) :
  flag_agrees e -> flag_agrees (fst (SimpleCameraComponent2.startCamera e)).
Proof. destruct e as [x v [[] fr lg]]; seg; exact (fun H => H). Qed.

(** Stopping through the handler of the current render clears both. *)
Lemma flag_stopCamera (e : Env) :
  flag_agrees (CameraComponent.stopCamera (st e) e) /\
  flag_agrees (SimpleCameraComponent.stopCamera (st e) e) /\
  flag_agrees (SimpleCameraComponent2.stopCamera (st e) e).
Proof.
  destruct e as [[[s|] a er fm ld pm] [[src]|] h]; seg; repeat split.
Qed.

End FlagAgrees.

Section FlagSteps.

Variable w : World.
Hypothesis Hw : flag_agrees (env w).

Lemma flag_switchCamera (snap : State) :
  flag_agrees (fst (CameraComponent.switchCamera snap (env w))) /\
  flag_agrees (fst (SimpleCameraComponent.switchCamera snap (env w))).
Proof.
  unfold CameraComponent.switchCamera, SimpleCameraComponent.switchCamera.
  destruct (isActive snap); cbn [fst]; split;
    first [ apply flag_startCamera_camera | apply flag_startCamera_simple | idtac ];
    exact Hw.
Qed.

Lemma flag_onPermissionQueried (p : PermissionState) :
  flag_agrees (fst (CameraComponent.onPermissionQueried p (env w))).
Proof.
  unfold CameraComponent.onPermissionQueried.
  destruct p; cbn [fst done]; try exact Hw.
  apply flag_startCamera_camera. exact Hw.
Qed.

Lemma flag_handleUserInteraction (snap : State) :
  flag_agrees (fst (CameraComponent.handleUserInteraction snap (env w))).
Proof.
  unfold CameraComponent.handleUserInteraction.
  destruct (negb (isActive snap) && negb (isLoading snap) && _); cbn [fst];
    [apply flag_startCamera_camera|]; exact Hw.
Qed.

Lemma flag_unmount :
  flag_agrees (env (unmount w)) /\
  flag_agrees (env (SimpleCameraComponent2.unmount2 w)).
Proof.
  unfold unmount, SimpleCameraComponent2.unmount2.
  destruct (mounted w); split; exact Hw.
Qed.

Ltac step_cases ev :=
  destruct ev as [| | | |p|p|i q|i r|i ok|];
  repeat match goal with
         | |- context [if ?c then _ else _] => destruct c
         | |- context [match listener w with _ => _ end] =>
             destruct (listener w)
         | |- context [match nth_error ?l ?i with _ => _ end] =>
             destruct (nth_error l i) as [[]|]
         end;
  try exact Hw.

Lemma flag_step_camera (ev : Event) : flag_agrees (env (CameraComponent.step w ev)).
Proof.
  unfold CameraComponent.step, CameraComponent.relisten.
  destruct (mounted (CameraComponent.handle w ev) && _); cbn [env].
  all: unfold CameraComponent.handle; step_cases ev.
  all: unfold CameraComponent.unlisten; cbn [env].
  all: try (apply flag_unmount).
  all: apply flag_agrees_dispatch with (w := w); try reflexivity; try exact Hw.
  all: intros _; cbn [fst done].
  all: first [ apply flag_startCamera_camera; exact Hw
             | apply flag_stopCamera
             | apply flag_switchCamera
             | apply flag_onPermissionQueried
             | apply flag_handleUserInteraction
             | apply flag_resumed_camera; exact Hw
             | apply flag_fallback_camera; exact Hw
             | exact Hw ].
Qed.

Lemma flag_step_simple (ev : Event) : flag_agrees (env (SimpleCameraComponent.step w ev)).
Proof.
  unfold SimpleCameraComponent.step; step_cases ev.
  all: try (apply flag_unmount).
  all: apply flag_agrees_dispatch with (w := w); try reflexivity; try exact Hw.
  all: intros _; cbn [fst done].
  all: first [ apply flag_startCamera_simple; exact Hw
             | apply flag_stopCamera
             | apply flag_switchCamera
             | apply flag_queried_simple; exact Hw
             | apply flag_resumed_simple; exact Hw
             | apply flag_played_simple; exact Hw ].
Qed.

Lemma flag_step_2 (ev : Event) : flag_agrees (env (SimpleCameraComponent2.step w ev)).
Proof.
  unfold SimpleCameraComponent2.step; step_cases ev.
  all: try (apply flag_unmount).
  all: apply flag_agrees_dispatch2 with (w := w); try reflexivity; try exact Hw.
  all: intros _; cbn [fst done].
  all: first [ apply flag_startCamera_2; exact Hw
             | apply flag_stopCamera
             | apply flag_resumed_2; exact Hw ].
Qed.

End FlagSteps.

Lemma flag_run (step : World -> Event -> World) (evs : list Event) (w : World) :
  (forall w ev, flag_agrees (env w) -> flag_agrees (env (step w ev))) ->
  flag_agrees (env w) -> flag_agrees (env (run step evs w)).
Proof.
  intros Hstep. revert w. induction evs as [|ev evs IH]; intros w Hw; [exact Hw|].
  cbn [run fold_left]. apply IH. now apply Hstep.
Qed.

(** X2. whatever events arrive and however the host answers, in every world a
    component reaches from its mount the flag isActive (isStreaming in the
    auto-starting component) is true exactly when a stream is stored. *)
Theorem flag_agrees_reachable (cam : bool) (evs : list Event) :
  flag_agrees (env (run CameraComponent.step evs (CameraComponent.initial cam))) /\
  flag_agrees (env (run SimpleCameraComponent.step evs (SimpleCameraComponent.initial cam))) /\
  flag_agrees (env (run SimpleCameraComponent2.step evs (SimpleCameraComponent2.initial cam))).
Proof.
  split; [|split]; apply flag_run.
  - intros w ev Hw. now apply flag_step_camera.
  - reflexivity.
  - intros w ev Hw. now apply flag_step_simple.
  - reflexivity.
  - intros w ev Hw. now apply flag_step_2.
  - destruct cam; reflexivity.
Qed.


(** ** Without camera support *)

Ltac untouched_world w H :=
  destruct w as [[[?str ?act ?err ?fm ?ld ?pm] ?v [?cam ?fr ?lg]] ?inf ?lis ?m];
  destruct H as (?Hc & ?Hl & ?Hi & ?Hs & ?Ha);
  cbn [env host st hasCamera log inflight stream isActive] in *; subst.

Lemma untouched_relisten (l : list HostEvent) (before : State) (w : World) :
  untouched l w -> untouched l (CameraComponent.relisten before w).
Proof.
  unfold CameraComponent.relisten. destruct (mounted w && _); exact (fun H => H).
Qed.

Lemma untouched_step_camera (l : list HostEvent) (w : World) (ev : Event) :
  untouched l w -> untouched l (CameraComponent.step w ev).
Proof.
  intros H. unfold CameraComponent.step. apply untouched_relisten.
  untouched_world w H.
  destruct ev as [| | | |p|p|i q|i r|i ok|], m, lis as [[ls [] le lf [] lp]|];
    try destruct p; try destruct lp; try destruct i; try destruct v as [[src]|].
  all: vm_compute; repeat split.
Qed.

Lemma untouched_step_simple (l : list HostEvent) (w : World) (ev : Event) :
  untouched l w -> untouched l (SimpleCameraComponent.step w ev).
Proof.
  intros H. untouched_world w H.
  destruct ev as [| | | |p|p|i q|i r|i ok|], m;
    try destruct i; try destruct v as [[src]|].
  all: vm_compute; repeat split.
Qed.

Lemma untouched_step_2 (l : list HostEvent) (w : World) (ev : Event) :
  untouched l w -> untouched l (SimpleCameraComponent2.step w ev).
Proof.
  intros H. untouched_world w H.
  destruct ev as [| | | |p|p|i q|i r|i ok|], m;
    try destruct i; try destruct v as [[src]|].
  all: vm_compute; repeat split.
Qed.

Lemma untouched_run (l : list HostEvent) (step : World -> Event -> World)
    (evs : list Event) (w : World) :
  (forall w ev, untouched l w -> untouched l (step w ev)) ->
  untouched l w -> untouched l (run step evs w).
Proof.
  intros Hstep. revert w. induction evs as [|ev evs IH]; intros w Hw; [exact Hw|].
  cbn [run fold_left]. apply IH. now apply Hstep.
Qed.

(** X1. On a host without navigator.mediaDevices.getUserMedia no component
    ever asks for a stream or stops a track.  The mount effect of
    CameraComponent queries the camera permission all the same when the host
    has navigator.permissions, camera or not: after any events that query is
    still the only entry of its host log (the log is empty when the host has
    no navigator.permissions).  The host logs of the two other components
    stay empty.  In all three nothing is in flight, no stream is stored and
    no session is active: the buttons are not rendered, and a startCamera
    that is still called (mount-time callback, document interaction, mount
    effect) only sets an error message. *)
Theorem unsupported_never_requests (perms : bool) (evs : list Event) :
  untouched (if perms then [Query] else [])
    (run CameraComponent.step evs (CameraComponent.mountedWith perms false)) /\
  untouched []
    (run SimpleCameraComponent.step evs (SimpleCameraComponent.initial false)) /\
  untouched []
    (run SimpleCameraComponent2.step evs (SimpleCameraComponent2.initial false)).
Proof.
  split; [|split]; apply untouched_run.
  - apply untouched_step_camera.
  - repeat split.
  - apply untouched_step_simple.
  - repeat split.
  - apply untouched_step_2.
  - repeat split.
Qed.


(** ** What a settled call leaves behind *)






(** ** The tracks that run after a granted call *)

Lemma live_commit_iff (before : State) (e : Env) (t : TrackId) :
  In t (live (log (host (commit before e)))) <->
  In t (live (log (host e))) /\
  (same_stream (stream before) (stream (st e)) = false ->
   ~ In t (tracks_of (stream before))).
Proof.
  rewrite log_commit. destruct (same_stream _ _).
  - split; [intros H; split; [exact H|discriminate]|tauto].
  - rewrite live_stopLog. split; intros [H1 H2]; split; auto.
Qed.







(** ** The loading flag *)

Section Loading.

Ltac seg :=
  unfold_handlers;
  unfold CameraComponent.onPermissionQueried, CameraComponent.handleUserInteraction;
  eval_names; use_tests; eval_env; stops_to_log; eval_env;
  cbn [awaiting_start option_map].

Lemma continues_resumed_camera (r : StreamResult) :
  continues (CameraComponent.startCamera_resumed r).
Proof.
  intros e. destruct r as [n|name]; [|by_name name; name_known].
  all: destruct e as [x [[src]|] h]; seg; try discriminate.
  all: intros _; eexists; split; reflexivity.
Qed.

Lemma continues_fallback_camera (r : StreamResult) :
  continues (CameraComponent.startCamera_fallback r).
Proof.
  intros e. destruct r as [n|name].
  all: destruct e as [x [[src]|] h]; seg; discriminate.
Qed.

Lemma continues_queried_simple (snap : State) (q : QueryResult) :
  continues (SimpleCameraComponent.startCamera_queried snap q).
Proof.
  intros e. destruct q as [[| |]|name]; [| | |by_name name; name_known].
  all: destruct snap as [[s|] a er fm ld pm], e as [x v h]; seg; try discriminate.
  all: intros _; eexists; split; reflexivity.
Qed.

Lemma continues_resumed_simple (r : StreamResult) :
  continues (SimpleCameraComponent.startCamera_resumed r).
Proof.
  intros e. destruct r as [n|name]; [|by_name name; name_known].
  all: destruct e as [x [[src]|] h]; seg; discriminate.
Qed.

Lemma begins_startCamera_camera (snap : State) :
  begins (CameraComponent.startCamera snap).
Proof.
  intros e. destruct snap as [[s|] a er fm ld pm], e as [x v [[] fr lg]]; seg.
  all: first [ intros _; right; eexists; split; reflexivity | intros H; left; exact H ].
Qed.

Lemma begins_startCamera_simple (snap : State) :
  begins (SimpleCameraComponent.startCamera snap).
Proof.
  intros e. destruct snap as [[s|] a er fm ld pm], e as [x v [[] fr lg]]; seg.
  all: first [ intros _; right; eexists; split; reflexivity | intros H; left; exact H ].
Qed.

Lemma begins_switchCamera (snap : State) :
  begins (CameraComponent.switchCamera snap) /\
  begins (SimpleCameraComponent.switchCamera snap).
Proof.
  unfold CameraComponent.switchCamera, SimpleCameraComponent.switchCamera.
  split; intros e; destruct (isActive snap); intros H.
  - destruct (begins_startCamera_camera snap _ H) as [H1|H1];
      [left; exact H1|right; exact H1].
  - left; exact H.
  - destruct (begins_startCamera_simple snap _ H) as [H1|H1];
      [left; exact H1|right; exact H1].
  - left; exact H.
Qed.

Lemma begins_onPermissionQueried (p : PermissionState) :
  begins (CameraComponent.onPermissionQueried p).
Proof.
  unfold CameraComponent.onPermissionQueried. intros e H.
  destruct p; try (left; exact H).
  destruct (begins_startCamera_camera initialState _ H) as [H1|H1];
    [left; exact H1|right; exact H1].
Qed.

Lemma begins_handleUserInteraction (snap : State) :
  begins (CameraComponent.handleUserInteraction snap).
Proof.
  unfold CameraComponent.handleUserInteraction. intros e H.
  destruct (negb (isActive snap) && negb (isLoading snap) && _).
  - apply (begins_startCamera_camera snap e H).
  - left; exact H.
Qed.

Lemma begins_done (a : Action) :
  (forall e, isLoading (st (a e)) = isLoading (st e)) -> begins (done a).
Proof. intros Ha e H. left. cbn [done fst] in H. now rewrite Ha in H. Qed.

Lemma stopCamera_keeps_loading (snap : State) (e : Env) :
  isLoading (st (CameraComponent.stopCamera snap e)) = isLoading (st e) /\
  isLoading (st (SimpleCameraComponent.stopCamera snap e)) = isLoading (st e).
Proof.
  destruct snap as [[s|] a er fm ld pm], e as [x [[src]|] h]; seg; split; reflexivity.
Qed.

End Loading.

Section LoadingSteps.

Lemma existsb_remove_nth (l : list Pending) (i : nat) (p : Pending) :
  nth_error l i = Some p -> awaiting_start p = false ->
  existsb awaiting_start (remove_nth i l) = existsb awaiting_start l.
Proof.
  revert i. induction l as [|x l IH]; intros [|i] Hp Hf; try discriminate Hp.
  - cbn in Hp. injection Hp as ->. cbn. now rewrite Hf.
  - cbn in *. now rewrite (IH i Hp Hf).
Qed.

Lemma loading_unmounted (w : World) : mounted w = false -> loading_awaited w.
Proof. intros H Hm. congruence. Qed.

Lemma loading_begin (f : Segment) (w : World) :
  begins f -> loading_awaited w -> loading_awaited (dispatch f w).
Proof.
  intros Hf Hw Hm Hl. unfold dispatch in *. cbn [mounted env inflight] in *.
  rewrite Hm in Hl. rewrite st_commit in Hl.
  rewrite existsb_app. destruct (Hf _ Hl) as [H|(p & -> & Hp)].
  - rewrite (Hw Hm H). reflexivity.
  - cbn. rewrite Hp. apply orb_true_r.
Qed.

Lemma loading_continue (f : Segment) (w : World) :
  continues f -> loading_awaited (dispatch f w).
Proof.
  intros Hf Hm Hl. unfold dispatch in *. cbn [mounted env inflight] in *.
  rewrite Hm in Hl. rewrite st_commit in Hl.
  rewrite existsb_app. destruct (Hf _ Hl) as (p & -> & Hp).
  cbn. rewrite Hp. apply orb_true_r.
Qed.

Lemma loading_played (ok : bool) (w : World) (i : nat) :
  nth_error (inflight w) i = Some AwaitPlay ->
  loading_awaited w ->
  loading_awaited (dispatch (SimpleCameraComponent.startCamera_played ok) (take i w)).
Proof.
  intros Hp Hw Hm Hl. unfold dispatch, take in *. cbn [mounted env inflight] in *.
  rewrite Hm in Hl. rewrite st_commit in Hl.
  cbn [snd SimpleCameraComponent.startCamera_played done opt_list].
  rewrite app_nil_r, (existsb_remove_nth _ _ _ Hp eq_refl).
  apply (Hw Hm). destruct ok; exact Hl.
Qed.

Lemma loading_same (w w' : World) :
  same_world w' w -> loading_awaited w -> loading_awaited w'.
Proof. intros (He & Hi & Hm). unfold loading_awaited. now rewrite He, Hi, Hm. Qed.

Lemma loading_unlisten (w : World) :
  loading_awaited w -> loading_awaited (CameraComponent.unlisten w).
Proof. exact (fun H => H). Qed.

Variable w : World.
Hypothesis Hw : loading_awaited w.

Ltac step_cases ev :=
  destruct ev as [| | | |p|p|i q|i r|i ok|];
  repeat match goal with
         | |- context [if ?c then _ else _] => destruct c
         | |- context [match listener w with _ => _ end] =>
             destruct (listener w)
         | |- context [match nth_error ?l ?i with _ => _ end] =>
             let E := fresh "E" in destruct (nth_error l i) as [[]|] eqn:E
         end;
  try exact Hw.

Lemma loading_unmount : loading_awaited (unmount w).
Proof.
  unfold unmount. destruct (mounted w); [|exact Hw].
  now apply loading_unmounted.
Qed.

Lemma loading_step_camera (ev : Event) : loading_awaited (CameraComponent.step w ev).
Proof.
  unfold CameraComponent.step.
  apply (loading_same _ _ (relisten_same _ _)).
  unfold CameraComponent.handle; step_cases ev.
  all: try apply loading_unmount.
  all: try apply loading_unlisten.
  all: first [ apply loading_continue;
               first [ apply continues_resumed_camera
                     | apply continues_fallback_camera ]
             | apply loading_begin; [|exact Hw] ].
  all: first [ apply begins_startCamera_camera
             | apply begins_switchCamera
             | apply begins_onPermissionQueried
             | apply begins_handleUserInteraction
             | apply begins_done; intros e;
               first [ apply stopCamera_keeps_loading | reflexivity ] ].
Qed.

Lemma loading_step_simple (ev : Event) :
  loading_awaited (SimpleCameraComponent.step w ev).
Proof.
  unfold SimpleCameraComponent.step; step_cases ev.
  all: try apply loading_unmount.
  all: first [ apply loading_played; assumption
             | apply loading_continue;
               first [ apply continues_queried_simple
                     | apply continues_resumed_simple ]
             | apply loading_begin; [|exact Hw] ].
  all: first [ apply begins_startCamera_simple
             | apply begins_switchCamera
             | apply begins_done; intros e; apply stopCamera_keeps_loading ].
Qed.

End LoadingSteps.

Lemma loading_run (step : World -> Event -> World) (evs : list Event) (w : World) :
  (forall w ev, loading_awaited w -> loading_awaited (step w ev)) ->
  loading_awaited w -> loading_awaited (run step evs w).
Proof.
  intros Hstep. revert w. induction evs as [|ev evs IH]; intros w Hw; [exact Hw|].
  cbn [run fold_left]. apply IH. now apply Hstep.
Qed.

(** X13. in every world CameraComponent or SimpleCameraComponent of
    src/App.tsx reaches from its mount, if the component is mounted and
    isLoading is true then a startCamera is still waiting for the host (for
    the permission query, the request or the fallback request): the loading
    overlay is never left on with nothing that will take it off. *)
Theorem loading_means_awaited (cam : bool) (evs : list Event) :
  let b := run CameraComponent.step evs (CameraComponent.initial cam) in
  let a := run SimpleCameraComponent.step evs (SimpleCameraComponent.initial cam) in
  (mounted b = true -> isLoading (st (env b)) = true ->
   existsb awaiting_start (inflight b) = true) /\
  (mounted a = true -> isLoading (st (env a)) = true ->
   existsb awaiting_start (inflight a) = true).
Proof.
  split; apply loading_run.
  - intros w ev Hw. now apply loading_step_camera.
  - intros _ H. discriminate H.
  - intros w ev Hw. now apply loading_step_simple.
  - intros _ H. discriminate H.
Qed.

Lemma loading_means_awaited_witness :
  mounted switchingWorld = true /\
  isLoading (st (env switchingWorld)) = true /\
  existsb awaiting_start (inflight switchingWorld) = true.
Proof.
  split; [reflexivity|]. split; [reflexivity|].
  exact (proj1 (loading_means_awaited true
                  [ClickStart; SettleStream 0 (Resolve 1); ClickSwitch])
           eq_refl eq_refl).
Defined.


(** ** Video only *)

Section NoAudio.

Ltac seg :=
  unfold no_audio; unfold_handlers;
  unfold CameraComponent.onPermissionQueried, CameraComponent.handleUserInteraction,
    SimpleCameraComponent2.startCamera, SimpleCameraComponent2.startCamera_resumed,
    SimpleCameraComponent2.stopCamera;
  eval_names; use_tests; eval_env; stops_to_log; eval_env;
  cbn [requests]; stops_away; cbn [requests];
  intros H; repeat (constructor; [reflexivity|]); exact H.

Lemma quiet_startCamera (snap : State) (e : Env) :
  no_audio e ->
  no_audio (fst (CameraComponent.startCamera snap e)) /\
  no_audio (fst (SimpleCameraComponent.startCamera snap e)) /\
  no_audio (fst (SimpleCameraComponent2.startCamera e)).
Proof.
  intros H. repeat split; revert H.
  all: destruct snap as [[s|] a er fm ld pm], e as [x v [[] fr lg]]; seg.
Qed.

Lemma quiet_resumed (r : StreamResult) (e : Env) :
  no_audio e ->
  no_audio (fst (CameraComponent.startCamera_resumed r e)) /\
  no_audio (fst (CameraComponent.startCamera_fallback r e)) /\
  no_audio (fst (SimpleCameraComponent.startCamera_resumed r e)) /\
  no_audio (fst (SimpleCameraComponent2.startCamera_resumed r e)).
Proof.
  intros H. repeat split; revert H.
  all: destruct r as [n|name]; [|by_name name; name_known].
  all: destruct e as [x [[src]|] h]; seg.
Qed.

Lemma quiet_queried (snap : State) (q : QueryResult) (e : Env) :
  no_audio e -> no_audio (fst (SimpleCameraComponent.startCamera_queried snap q e)).
Proof.
  destruct q as [[| |]|name]; [| | |by_name name; name_known].
  all: destruct snap as [[s|] a er fm ld pm], e as [x v h]; seg.
Qed.

Lemma quiet_played (ok : bool) (e : Env) :
  no_audio e -> no_audio (fst (SimpleCameraComponent.startCamera_played ok e)).
Proof. destruct ok; seg. Qed.

Lemma quiet_stopCamera (snap : State) (e : Env) :
  no_audio e ->
  no_audio (CameraComponent.stopCamera snap e) /\
  no_audio (SimpleCameraComponent.stopCamera snap e) /\
  no_audio (SimpleCameraComponent2.stopCamera snap e).
Proof.
  intros H. repeat split; revert H.
  all: destruct snap as [[s|] a er fm ld pm], e as [x [[src]|] h]; seg.
Qed.

Lemma quiet_startCamera2 (e : Env) :
  no_audio e -> no_audio (fst (SimpleCameraComponent2.startCamera e)).
Proof. intros H. now apply (quiet_startCamera initialState e). Qed.

Lemma quiet_switchCamera (snap : State) (e : Env) :
  no_audio e ->
  no_audio (fst (CameraComponent.switchCamera snap e)) /\
  no_audio (fst (SimpleCameraComponent.switchCamera snap e)).
Proof.
  intros H. unfold CameraComponent.switchCamera, SimpleCameraComponent.switchCamera.
  destruct (isActive snap); split; try exact H.
  - apply (quiet_startCamera snap (setFacingMode _ e)). exact H.
  - apply (quiet_startCamera snap (setFacingMode _ e)). exact H.
Qed.

Lemma quiet_onPermissionQueried (p : PermissionState) (e : Env) :
  no_audio e -> no_audio (fst (CameraComponent.onPermissionQueried p e)).
Proof.
  intros H. unfold CameraComponent.onPermissionQueried.
  destruct p; try exact H.
  apply (quiet_startCamera initialState (setPermissions granted e)). exact H.
Qed.

Lemma quiet_handleUserInteraction (snap : State) (e : Env) :
  no_audio e -> no_audio (fst (CameraComponent.handleUserInteraction snap e)).
Proof.
  intros H. unfold CameraComponent.handleUserInteraction.
  destruct (negb (isActive snap) && negb (isLoading snap) && _); [|exact H].
  now apply quiet_startCamera.
Qed.

Lemma quiet_cleanup (old : option MediaStream) (e : Env) :
  no_audio e -> no_audio (cleanup old e).
Proof.
  unfold no_audio, cleanup. destruct old; [|exact (fun H => H)].
  rewrite forEach_stop_log. cbn. now rewrite requests_stopLog.
Qed.

Lemma quiet_dispatch (f : Segment) (w w' : World) :
  env w' = env w ->
  (no_audio (env w) -> no_audio (fst (f (env w)))) ->
  no_audio (env w) ->
  no_audio (env (dispatch f w')) /\
  no_audio (env (SimpleCameraComponent2.dispatch2 f w')).
Proof.
  intros He Hf Hw. unfold dispatch, SimpleCameraComponent2.dispatch2.
  rewrite He. cbn [env]. destruct (mounted w'); unfold no_audio in *; cbn [host].
  - rewrite requests_commit. split; [now apply Hf|].
    unfold SimpleCameraComponent2.commit2.
    destruct (same_stream _ _); [now apply Hf|].
    apply quiet_cleanup. now apply Hf.
  - split; now apply Hf.
Qed.

Variable w : World.
Hypothesis Hw : no_audio (env w).

Lemma quiet_unmount :
  no_audio (env (unmount w)) /\ no_audio (env (SimpleCameraComponent2.unmount2 w)).
Proof.
  unfold unmount, SimpleCameraComponent2.unmount2.
  destruct (mounted w); split; try exact Hw.
  - apply (quiet_cleanup _ (env w)). exact Hw.
  - unfold andThen. apply (quiet_cleanup _ (cleanup _ (env w))).
    apply quiet_cleanup. exact Hw.
Qed.

Ltac step_cases ev :=
  destruct ev as [| | | |p|p|i q|i r|i ok|];
  repeat match goal with
         | |- context [if ?c then _ else _] => destruct c
         | |- context [match listener w with _ => _ end] =>
             destruct (listener w)
         | |- context [match nth_error ?l ?i with _ => _ end] =>
             destruct (nth_error l i) as [[]|]
         end;
  try exact Hw.

Ltac quiet_segment :=
  intros _; cbn [fst done];
  first [ apply quiet_startCamera2; exact Hw
        | apply quiet_startCamera; exact Hw
        | apply quiet_stopCamera; exact Hw
        | apply quiet_switchCamera; exact Hw
        | apply quiet_onPermissionQueried; exact Hw
        | apply quiet_handleUserInteraction; exact Hw
        | apply quiet_resumed; exact Hw
        | apply quiet_queried; exact Hw
        | apply quiet_played; exact Hw
        | exact Hw ].

Lemma quiet_step_camera (ev : Event) : no_audio (env (CameraComponent.step w ev)).
Proof.
  unfold CameraComponent.step.
  rewrite (proj1 (relisten_same _ _)).
  unfold CameraComponent.handle; step_cases ev.
  all: unfold CameraComponent.unlisten; cbn [env].
  all: try apply quiet_unmount.
  all: apply (quiet_dispatch _ w); [reflexivity| |exact Hw].
  all: quiet_segment.
Qed.

Lemma quiet_step_simple (ev : Event) : no_audio (env (SimpleCameraComponent.step w ev)).
Proof.
  unfold SimpleCameraComponent.step; step_cases ev.
  all: try apply quiet_unmount.
  all: apply (quiet_dispatch _ w); [reflexivity| |exact Hw].
  all: quiet_segment.
Qed.

Lemma quiet_step_2 (ev : Event) : no_audio (env (SimpleCameraComponent2.step w ev)).
Proof.
  unfold SimpleCameraComponent2.step; step_cases ev.
  all: try apply quiet_unmount.
  all: apply (quiet_dispatch _ w); [reflexivity| |exact Hw].
  all: quiet_segment.
Qed.

End NoAudio.

Lemma quiet_run (step : World -> Event -> World) (evs : list Event) (w : World) :
  (forall w ev, no_audio (env w) -> no_audio (env (step w ev))) ->
  no_audio (env w) -> no_audio (env (run step evs w)).
Proof.
  intros Hstep. revert w. induction evs as [|ev evs IH]; intros w Hw; [exact Hw|].
  cbn [run fold_left]. apply IH. now apply Hstep.
Qed.

(** X14. capture is video only.  Whatever happens to a component after its
    mount, every getUserMedia call it has made carries audio: false - the
    request with resolution hints, the fallback request, the facing-only
    request and the 640x480 request alike. *)
Theorem never_requests_audio (cam : bool) (evs : list Event) :
  no_audio (env (run CameraComponent.step evs (CameraComponent.initial cam))) /\
  no_audio (env (run SimpleCameraComponent.step evs (SimpleCameraComponent.initial cam))) /\
  no_audio (env (run SimpleCameraComponent2.step evs (SimpleCameraComponent2.initial cam))).
Proof.
  split; [|split]; apply quiet_run.
  - intros w ev Hw. now apply quiet_step_camera.
  - constructor.
  - intros w ev Hw. now apply quiet_step_simple.
  - constructor.
  - intros w ev Hw. now apply quiet_step_2.
  - unfold SimpleCameraComponent2.initial.
    match goal with
    | |- no_audio (env (SimpleCameraComponent2.dispatch2 _ ?w)) =>
        apply (quiet_dispatch SimpleCameraComponent2.startCamera w w);
        [reflexivity|apply quiet_startCamera2|constructor]
    end.
Qed.


(** ** The interaction listener is never stale where it matters *)

Section Keeps.

Ltac seg :=
  unfold keeps_facing, keeps_support; unfold_handlers;
  unfold CameraComponent.onPermissionQueried, CameraComponent.handleUserInteraction;
  eval_names; use_tests; eval_env; stops_to_log; eval_env.

Lemma keeps_startCamera (snap : State) :
  keeps_facing (CameraComponent.startCamera snap) /\
  keeps_support (CameraComponent.startCamera snap).
Proof.
  split; intros e.
  all: destruct snap as [[s|] a er fm ld pm], e as [x v [[] fr lg]]; seg; reflexivity.
Qed.

Lemma keeps_resumed (r : StreamResult) :
  keeps_facing (CameraComponent.startCamera_resumed r) /\
  keeps_support (CameraComponent.startCamera_resumed r).
Proof.
  split; intros e.
  all: destruct r as [n|name]; [|by_name name; name_known].
  all: destruct e as [x [[src]|] h]; seg; reflexivity.
Qed.

Lemma keeps_fallback (r : StreamResult) :
  keeps_facing (CameraComponent.startCamera_fallback r) /\
  keeps_support (CameraComponent.startCamera_fallback r).
Proof.
  split; intros e.
  all: destruct r as [n|name].
  all: destruct e as [x [[src]|] h]; seg; reflexivity.
Qed.

Lemma keeps_stopCamera (snap : State) :
  keeps_facing (done (CameraComponent.stopCamera snap)) /\
  keeps_support (done (CameraComponent.stopCamera snap)).
Proof.
  split; intros e.
  all: destruct snap as [[s|] a er fm ld pm], e as [x [[src]|] h]; seg; reflexivity.
Qed.

Lemma keeps_onPermissionQueried (p : PermissionState) :
  keeps_facing (CameraComponent.onPermissionQueried p) /\
  keeps_support (CameraComponent.onPermissionQueried p).
Proof.
  split; intros e; unfold CameraComponent.onPermissionQueried.
  all: destruct p; try reflexivity.
  - exact (proj1 (keeps_startCamera initialState) (setPermissions granted e)).
  - exact (proj2 (keeps_startCamera initialState) (setPermissions granted e)).
Qed.

Lemma keeps_handleUserInteraction (snap : State) :
  keeps_facing (CameraComponent.handleUserInteraction snap) /\
  keeps_support (CameraComponent.handleUserInteraction snap).
Proof.
  split; intros e; unfold CameraComponent.handleUserInteraction.
  all: destruct (negb (isActive snap) && negb (isLoading snap) && _);
    try reflexivity; apply keeps_startCamera.
Qed.

Lemma keeps_setPermissions (p : PermissionState) :
  keeps_facing (done (setPermissions p)) /\ keeps_support (done (setPermissions p)).
Proof. split; intros e; reflexivity. Qed.

Lemma support_switchCamera (snap : State) :
  keeps_support (CameraComponent.switchCamera snap).
Proof.
  intros e. unfold CameraComponent.switchCamera.
  destruct (isActive snap); [|reflexivity].
  exact (proj2 (keeps_startCamera snap) (setFacingMode _ e)).
Qed.

End Keeps.

Lemma same_deps_fields (a b : State) :
  CameraComponent.same_deps a b = true <->
  isActive a = isActive b /\ isLoading a = isLoading b /\
  permissions a = permissions b.
Proof.
  unfold CameraComponent.same_deps.
  destruct (isActive a), (isActive b), (isLoading a), (isLoading b),
    (permissions a), (permissions b); cbn; split;
    first [ discriminate | intros [? [? ?]]; discriminate | repeat split ].
Qed.

Section ListenerSteps.

Variable w : World.

Lemma dispatch_keeps (f : Segment) (w' : World) :
  env w' = env w ->
  (keeps_facing f -> facingMode (st (env (dispatch f w'))) = facingMode (st (env w))) /\
  (keeps_support f -> hasCamera (host (env (dispatch f w'))) = hasCamera (host (env w))).
Proof.
  intros He. unfold dispatch. rewrite He. cbn [env].
  destruct (mounted w'); split; intros Hf; cbn [st host];
    rewrite ?st_commit, ?hasCamera_commit; first [apply Hf | reflexivity].
Qed.

Lemma handle_listener (ev : Event) :
  (mounted (CameraComponent.handle w ev) = true -> mounted w = true) /\
  (forall snap, listener (CameraComponent.handle w ev) = Some snap ->
                listener w = Some snap).
Proof.
  unfold CameraComponent.handle, unmount, CameraComponent.unlisten.
  destruct ev as [| | | |p|p|i q|i r|i ok|];
    repeat match goal with
           | |- context [if ?c then _ else _] => destruct c eqn:?
           | |- context [match listener w with _ => _ end] =>
               destruct (listener w) eqn:?
           | |- context [match nth_error ?l ?i with _ => _ end] =>
               destruct (nth_error l i) as [[]|]
           end;
    cbn [dispatch take mounted listener env]; split; intros; congruence.
Qed.

Lemma handle_support (ev : Event) :
  hasCamera (host (env (CameraComponent.handle w ev))) = hasCamera (host (env w)).
Proof.
  unfold CameraComponent.handle, unmount, CameraComponent.unlisten.
  destruct ev as [| | | |p|p|i q|i r|i ok|];
    repeat match goal with
           | |- context [if ?c then _ else _] => destruct c
           | |- context [match listener w with _ => _ end] =>
               destruct (listener w)
           | |- context [match nth_error ?l ?i with _ => _ end] =>
               destruct (nth_error l i) as [[]|]
           end;
    cbn [env]; try reflexivity.
  all: try (unfold cleanup; destruct (stream (st (env w)));
            [rewrite forEach_stop_log|]; reflexivity).
  all: apply dispatch_keeps; [reflexivity|].
  all: first [ apply keeps_startCamera | apply keeps_stopCamera
             | apply support_switchCamera | apply keeps_onPermissionQueried
             | apply keeps_handleUserInteraction | apply keeps_setPermissions
             | apply keeps_resumed | apply keeps_fallback ].
Qed.

Lemma handle_facing (ev : Event) :
  isActive (st (env w)) = false ->
  facingMode (st (env (CameraComponent.handle w ev))) = facingMode (st (env w)).
Proof.
  intros Hact.
  unfold CameraComponent.handle, unmount, CameraComponent.unlisten,
    CameraComponent.canSwitch.
  rewrite Hact, Bool.andb_false_r, Bool.andb_false_r.
  destruct ev as [| | | |p|p|i q|i r|i ok|];
    repeat match goal with
           | |- context [if ?c then _ else _] => destruct c
           | |- context [match listener w with _ => _ end] =>
               destruct (listener w)
           | |- context [match nth_error ?l ?i with _ => _ end] =>
               destruct (nth_error l i) as [[]|]
           end;
    cbn [env st]; try reflexivity.
  all: apply dispatch_keeps; [reflexivity|].
  all: first [ apply keeps_startCamera | apply keeps_stopCamera
             | apply keeps_onPermissionQueried
             | apply keeps_handleUserInteraction | apply keeps_setPermissions
             | apply keeps_resumed | apply keeps_fallback ].
Qed.

Hypothesis Hflag : flag_agrees (env w).
Hypothesis Hw : listener_current w.

Lemma listener_step (ev : Event) : listener_current (CameraComponent.step w ev).
Proof.
  pose proof (flag_step_camera w Hflag ev) as Hflag'.
  revert Hflag'. unfold CameraComponent.step, CameraComponent.relisten.
  destruct (mounted (CameraComponent.handle w ev) &&
            negb (CameraComponent.same_deps (st (env w))
                    (st (env (CameraComponent.handle w ev))))) eqn:Hre;
    intros Hflag' snap Hm Hl; cbn [env listener mounted] in *.
  - injection Hl as <-. split; [apply same_deps_refl|]. now split.
  - rewrite Hm in Hre. cbn [andb] in Hre. apply Bool.negb_false_iff in Hre.
    destruct (handle_listener ev) as [Hm' Hl'].
    destruct (Hw snap (Hm' Hm) (Hl' snap Hl)) as [Hd Hs].
    apply same_deps_fields in Hre. apply same_deps_fields in Hd.
    destruct Hre as [Ha [Hld Hp]], Hd as [Ha0 [Hld0 Hp0]].
    split; [apply same_deps_fields; repeat split; congruence|].
    intros Hsnap. destruct (Hs Hsnap) as [Hf Hst].
    assert (Hact : isActive (st (env w)) = false) by congruence.
    split.
    + rewrite Hf. symmetry. now apply handle_facing.
    + rewrite Hst. unfold flag_agrees in Hflag, Hflag'.
      rewrite <- Ha, Hact in Hflag'. rewrite Hact in Hflag.
      destruct (stream (st (env w))); [discriminate|].
      destruct (stream (st (env (CameraComponent.handle w ev)))); [discriminate|].
      reflexivity.
Qed.

End ListenerSteps.

Lemma listener_run (evs : list Event) (w : World) :
  flag_agrees (env w) -> listener_current w ->
  let w' := run CameraComponent.step evs w in
  flag_agrees (env w') /\ listener_current w' /\
  hasCamera (host (env w')) = hasCamera (host (env w)).
Proof.
  revert w. induction evs as [|ev evs IH]; intros w Hf Hl; cbv zeta.
  - split; [exact Hf|]. split; [exact Hl|reflexivity].
  - cbn [run fold_left].
    destruct (IH (CameraComponent.step w ev)) as [Hf' [Hl' Hc]].
    + now apply flag_step_camera.
    + now apply listener_step.
    + split; [exact Hf'|]. split; [exact Hl'|].
      unfold run in Hc. rewrite Hc. unfold CameraComponent.step.
      rewrite (proj1 (relisten_same _ _)). apply handle_support.
Qed.

Lemma startCamera_reads (a b : State) (e : Env) :
  stream a = stream b -> facingMode a = facingMode b ->
  CameraComponent.startCamera a e = CameraComponent.startCamera b e.
Proof.
  destruct a as [s1 a1 e1 f1 l1 p1], b as [s2 a2 e2 f2 l2 p2].
  cbn [stream facingMode]. intros -> ->. reflexivity.
Qed.

(** X15. the closure of the document-level interaction handler is never stale
    where it matters.  In every world CameraComponent reaches from its mount
    on a host with a camera, while the handler is registered: if the
    component is idle (not active, not loading, permissions not 'denied') an
    interaction anywhere on the page leaves the component exactly where a
    click on Start would; otherwise it calls nothing. *)
Theorem CameraComponent_interaction_is_start (evs : list Event) (snap : State) :
  let w := run CameraComponent.step evs (CameraComponent.initial true) in
  mounted w = true ->
  listener w = Some snap ->
  (idle (st (env w)) = true ->
   env (CameraComponent.step w Interaction) = env (CameraComponent.step w ClickStart) /\
   inflight (CameraComponent.step w Interaction) =
     inflight (CameraComponent.step w ClickStart)) /\
  (idle (st (env w)) = false ->
   env (CameraComponent.step w Interaction) = env w /\
   inflight (CameraComponent.step w Interaction) = inflight w).
Proof.
  intros w Hm Hl.
  destruct (listener_run evs (CameraComponent.initial true)) as [Hf [Hcur Hcam]].
  { reflexivity. }
  { intros s _ [= <-]. split; [reflexivity|]. now split. }
  fold w in Hf, Hcur, Hcam. change (hasCamera (host (env w)) = true) in Hcam.
  destruct (Hcur snap Hm Hl) as [Hd Hs]. apply same_deps_fields in Hd.
  destruct Hd as [Ha [Hld Hp]].
  unfold CameraComponent.step.
  rewrite !(proj1 (relisten_same _ _)), !(proj1 (proj2 (relisten_same _ _))).
  unfold CameraComponent.handle, CameraComponent.unlisten,
    CameraComponent.canStart, CameraComponent.handleUserInteraction.
  rewrite Hl, Hm, Hcam, Ha, Hld, Hp. cbn [env inflight andb].
  unfold idle. split; intros Hidle; rewrite Hidle.
  - apply Bool.andb_true_iff in Hidle. destruct Hidle as [Hidle _].
    rewrite Hidle.
    apply Bool.andb_true_iff in Hidle. destruct Hidle as [Hact _].
    apply Bool.negb_true_iff in Hact.
    assert (Hsnap : isActive snap = false) by congruence.
    destruct (Hs Hsnap) as [Hfm Hst].
    unfold dispatch. cbn [env inflight].
    rewrite (startCamera_reads snap (st (env w)) (env w) Hst Hfm). now split.
  - unfold dispatch. rewrite Hm. cbn [env inflight fst snd opt_list].
    rewrite commit_same by reflexivity. rewrite app_nil_r. now split.
Qed.

Lemma CameraComponent_interaction_is_start_witness :
  mounted (CameraComponent.initial true) = true /\
  listener (CameraComponent.initial true) = Some initialState /\
  idle (st (env (CameraComponent.initial true))) = true /\
  env (CameraComponent.step (CameraComponent.initial true) Interaction) =
    env (CameraComponent.step (CameraComponent.initial true) ClickStart).
Proof.
  split; [reflexivity|]. split; [reflexivity|]. split; [reflexivity|].
  exact (proj1 (proj1 (CameraComponent_interaction_is_start [] initialState
                         eq_refl eq_refl) eq_refl)).
Defined.


(** ** No track is left running behind a mounted component *)

Section Held.

Ltac back :=
  let t := fresh "t" in
  let Ht := fresh "Ht" in
  intros t Ht;
  repeat first
    [ progress cbn [live] in Ht
    | apply live_stopLog in Ht; destruct Ht as [Ht _] ];
  first [ right; exact Ht
        | apply in_app_or in Ht; destruct Ht as [Ht|Ht];
          [ left; exact Ht
          | repeat first
              [ progress cbn [live] in Ht
              | apply live_stopLog in Ht; destruct Ht as [Ht _] ];
            right; exact Ht ] ].

Ltac seg :=
  unfold adds_only_held; unfold_handlers;
  unfold CameraComponent.onPermissionQueried, CameraComponent.handleUserInteraction,
    SimpleCameraComponent2.startCamera, SimpleCameraComponent2.startCamera_resumed,
    SimpleCameraComponent2.stopCamera;
  eval_names; use_tests; eval_env; stops_to_log; eval_env.

Lemma held_startCamera (snap : State) :
  adds_only_held (CameraComponent.startCamera snap) /\
  adds_only_held (SimpleCameraComponent.startCamera snap).
Proof.
  split; intros e.
  all: destruct snap as [[s|] a er fm ld pm], e as [x v [[] fr lg]]; seg; back.
Qed.

Lemma held_resumed (r : StreamResult) :
  adds_only_held (CameraComponent.startCamera_resumed r) /\
  adds_only_held (CameraComponent.startCamera_fallback r) /\
  adds_only_held (SimpleCameraComponent.startCamera_resumed r).
Proof.
  repeat split; intros e.
  all: destruct r as [n|name]; [|by_name name; name_known].
  all: destruct e as [x [[src]|] h]; seg; back.
Qed.

Lemma held_queried (snap : State) (q : QueryResult) :
  adds_only_held (SimpleCameraComponent.startCamera_queried snap q).
Proof.
  intros e. destruct q as [[| |]|name]; [| | |by_name name; name_known].
  all: destruct snap as [[s|] a er fm ld pm], e as [x v h]; seg; back.
Qed.

Lemma held_played (ok : bool) :
  adds_only_held (SimpleCameraComponent.startCamera_played ok).
Proof. intros e. destruct ok; seg; back. Qed.

Lemma held_stopCamera (snap : State) :
  adds_only_held (done (CameraComponent.stopCamera snap)) /\
  adds_only_held (done (SimpleCameraComponent.stopCamera snap)).
Proof.
  split; intros e.
  all: destruct snap as [[s|] a er fm ld pm], e as [x [[src]|] h]; seg; back.
Qed.

Lemma held_switchCamera (snap : State) :
  adds_only_held (CameraComponent.switchCamera snap) /\
  adds_only_held (SimpleCameraComponent.switchCamera snap).
Proof.
  unfold CameraComponent.switchCamera, SimpleCameraComponent.switchCamera.
  split; intros e; destruct (isActive snap).
  - exact (proj1 (held_startCamera snap) (setFacingMode _ e)).
  - intros t Ht. right. exact Ht.
  - exact (proj2 (held_startCamera snap) (setFacingMode _ e)).
  - intros t Ht. right. exact Ht.
Qed.

Lemma held_onPermissionQueried (p : PermissionState) :
  adds_only_held (CameraComponent.onPermissionQueried p).
Proof.
  intros e. unfold CameraComponent.onPermissionQueried.
  destruct p; try (intros t Ht; right; exact Ht).
  exact (proj1 (held_startCamera initialState) (setPermissions granted e)).
Qed.

Lemma held_handleUserInteraction (snap : State) :
  adds_only_held (CameraComponent.handleUserInteraction snap).
Proof.
  intros e. unfold CameraComponent.handleUserInteraction.
  destruct (negb (isActive snap) && negb (isLoading snap) && _).
  - apply held_startCamera.
  - intros t Ht. right. exact Ht.
Qed.

Lemma held_setPermissions (p : PermissionState) :
  adds_only_held (done (setPermissions p)).
Proof. intros e t Ht. right. exact Ht. Qed.

(** The auto-starting component stores a granted stream only through the
    video element, which it always renders. *)
Lemma held_startCamera2 : adds_only_held2 SimpleCameraComponent2.startCamera.
Proof.
  intros e Hv. destruct e as [x [[src]|] [[] fr lg]]; [| |elim Hv; reflexivity ..].
  all: clear Hv; seg; (split; [discriminate|]); back.
Qed.

Lemma held_resumed2 (r : StreamResult) :
  adds_only_held2 (SimpleCameraComponent2.startCamera_resumed r).
Proof.
  intros e Hv. destruct e as [x [[src]|] h]; [|elim Hv; reflexivity].
  destruct r as [n|name].
  all: clear Hv; seg; (split; [discriminate|]); back.
Qed.

Lemma held_stopCamera2 (snap : State) :
  adds_only_held2 (done (SimpleCameraComponent2.stopCamera snap)).
Proof.
  intros e Hv. destruct e as [x [[src]|] h]; [|elim Hv; reflexivity].
  destruct snap as [[s|] a er fm ld pm].
  all: clear Hv; seg; (split; [discriminate|]); back.
Qed.

Lemma commit_held (before : State) (e : Env) :
  (forall t, In t (live (log (host e))) ->
             In t (tracks_of (stream (st e))) \/ In t (tracks_of (stream before))) ->
  held (commit before e) /\ held (SimpleCameraComponent2.commit2 before e).
Proof.
  intros H. unfold held, SimpleCameraComponent2.commit2.
  rewrite st_commit, log_commit.
  destruct (same_stream (stream before) (stream (st e))) eqn:E.
  - apply same_stream_eq in E. rewrite E in H.
    split; intros t Ht; destruct (H t Ht); assumption.
  - split; intros t Ht.
    + apply live_stopLog in Ht. destruct Ht as [Ht Hno].
      destruct (H t Ht); [assumption|contradiction].
    + revert Ht. unfold cleanup. destruct (stream before) as [s|] eqn:Hb.
      * rewrite forEach_stop_log. cbn [withLog host log st].
        intros Ht. apply live_stopLog in Ht. destruct Ht as [Ht Hno].
        destruct (H t Ht); [assumption|contradiction].
      * intros Ht. destruct (H t Ht) as [Hin|[]]. exact Hin.
Qed.

Variable w : World.

Lemma dispatch_held (f : Segment) (w' : World) :
  env w' = env w -> mounted w' = mounted w ->
  adds_only_held f ->
  (mounted w = true -> held (env w)) ->
  mounted (dispatch f w') = true -> held (env (dispatch f w')).
Proof.
  intros He Hm Hf Hw. unfold dispatch. rewrite He, Hm. cbn [env mounted].
  intros Hm'. rewrite Hm'. apply commit_held.
  intros t Ht. destruct (Hf (env w) t Ht) as [Hin|Hin]; [now left|].
  right. now apply (Hw Hm').
Qed.

Lemma dispatch2_held (f : Segment) (w' : World) :
  env w' = env w -> mounted w' = mounted w ->
  adds_only_held2 f ->
  (mounted w = true -> videoRef (env w) <> None /\ held (env w)) ->
  mounted (SimpleCameraComponent2.dispatch2 f w') = true ->
  videoRef (env (SimpleCameraComponent2.dispatch2 f w')) <> None /\
  held (env (SimpleCameraComponent2.dispatch2 f w')).
Proof.
  intros He Hm Hf Hw. unfold SimpleCameraComponent2.dispatch2.
  rewrite He, Hm. cbn [env mounted].
  intros Hm'. rewrite Hm'. destruct (Hw Hm') as [Hv Hh].
  destruct (Hf (env w) Hv) as [Hv' Hl]. split.
  - unfold SimpleCameraComponent2.commit2.
    destruct (same_stream _ _); [exact Hv'|].
    unfold cleanup. destruct (stream (st (env w))); [|exact Hv'].
    rewrite forEach_stop_log. exact Hv'.
  - apply commit_held.
    intros t Ht. destruct (Hl t Ht) as [Hin|Hin]; [now left|].
    right. now apply Hh.
Qed.

Lemma unmount_unmounted :
  mounted (unmount w) = false /\ mounted (SimpleCameraComponent2.unmount2 w) = false.
Proof.
  unfold unmount, SimpleCameraComponent2.unmount2.
  destruct (mounted w) eqn:E; split; first [reflexivity | exact E].
Qed.

Ltac step_cases ev :=
  destruct ev as [| | | |p|p|i q|i r|i ok|];
  try (intros Hm; first [ rewrite (proj1 unmount_unmounted) in Hm
                        | rewrite (proj2 unmount_unmounted) in Hm ];
       discriminate Hm);
  repeat match goal with
         | |- context [if ?c then _ else _] => destruct c
         | |- context [match listener w with _ => _ end] =>
             destruct (listener w)
         | |- context [match nth_error ?l ?i with _ => _ end] =>
             destruct (nth_error l i) as [[]|]
         end.

Ltac held_segment :=
  first [ apply held_startCamera | apply held_stopCamera
        | apply held_switchCamera | apply held_onPermissionQueried
        | apply held_handleUserInteraction | apply held_setPermissions
        | apply held_resumed | apply held_queried | apply held_played
        | apply held_startCamera2 | apply held_resumed2 | apply held_stopCamera2 ].

Lemma held_step_camera (ev : Event) :
  (mounted w = true -> held (env w)) ->
  mounted (CameraComponent.step w ev) = true -> held (env (CameraComponent.step w ev)).
Proof.
  intros Hw. unfold CameraComponent.step.
  rewrite (proj1 (relisten_same _ _)), (proj2 (proj2 (relisten_same _ _))).
  unfold CameraComponent.handle, CameraComponent.unlisten; step_cases ev.
  all: cbn [env mounted]; try exact Hw; try discriminate.
  all: apply dispatch_held; [reflexivity|reflexivity| |exact Hw].
  all: held_segment.
Qed.

Lemma held_step_simple (ev : Event) :
  (mounted w = true -> held (env w)) ->
  mounted (SimpleCameraComponent.step w ev) = true ->
  held (env (SimpleCameraComponent.step w ev)).
Proof.
  intros Hw. unfold SimpleCameraComponent.step; step_cases ev.
  all: cbn [env mounted]; try exact Hw; try discriminate.
  all: apply dispatch_held; [reflexivity|reflexivity| |exact Hw].
  all: held_segment.
Qed.

Lemma held_step_2 (ev : Event) :
  (mounted w = true -> videoRef (env w) <> None /\ held (env w)) ->
  mounted (SimpleCameraComponent2.step w ev) = true ->
  videoRef (env (SimpleCameraComponent2.step w ev)) <> None /\
  held (env (SimpleCameraComponent2.step w ev)).
Proof.
  intros Hw. unfold SimpleCameraComponent2.step; step_cases ev.
  all: cbn [env mounted]; try exact Hw; try discriminate.
  all: apply dispatch2_held; [reflexivity|reflexivity| |exact Hw].
  all: held_segment.
Qed.

End Held.

Lemma held_run (step : World -> Event -> World) (P : World -> Prop)
    (evs : list Event) (w : World) :
  (forall w ev, (mounted w = true -> P w) ->
                mounted (step w ev) = true -> P (step w ev)) ->
  (mounted w = true -> P w) ->
  mounted (run step evs w) = true -> P (run step evs w).
Proof.
  intros Hstep. revert w. induction evs as [|ev evs IH]; intros w Hw; [exact Hw|].
  cbn [run fold_left]. apply IH. now apply Hstep.
Qed.

(** X16. No track is left running behind a mounted component whose events
    are rendered one by one.  Take any sequence of events in which React
    renders after each one before the next is handled (so that no two
    settlements reach the component between two renders), the host settling
    the requests in flight in any order, overlapping ones included.  In every
    world a component reaches from its mount in this way and in which it is
    still mounted, every live track belongs to the stream the component
    stores.  (Two grants between two renders break this: X17.) *)
Theorem mounted_holds_every_live_track (cam : bool) (evs : list Event) :
  let b := run CameraComponent.step evs (CameraComponent.initial cam) in
  let a := run SimpleCameraComponent.step evs (SimpleCameraComponent.initial cam) in
  let c := run SimpleCameraComponent2.step evs (SimpleCameraComponent2.initial cam) in
  (mounted b = true -> held (env b)) /\
  (mounted a = true -> held (env a)) /\
  (mounted c = true -> held (env c)).
Proof.
  cbv zeta. split; [|split].
  - apply (held_run CameraComponent.step (fun w => held (env w))).
    + intros w ev. apply held_step_camera.
    + intros _ t [].
  - apply (held_run SimpleCameraComponent.step (fun w => held (env w))).
    + intros w ev. apply held_step_simple.
    + intros _ t [].
  - intros Hm.
    apply (held_run SimpleCameraComponent2.step
             (fun w => videoRef (env w) <> None /\ held (env w))); [| |exact Hm].
    + intros w ev. apply held_step_2.
    + intros _. destruct cam; split; first [discriminate | intros t []].
Qed.

Lemma mounted_holds_every_live_track_witness :
  mounted (run SimpleCameraComponent2.step
             [SettleStream 0 (Resolve 2); ClickStop; ClickStart; ClickStart;
              SettleStream 1 (Resolve 1); SettleStream 0 (Resolve 1)]
             (SimpleCameraComponent2.initial true)) = true /\
  held (env (run SimpleCameraComponent2.step
               [SettleStream 0 (Resolve 2); ClickStop; ClickStart; ClickStart;
                SettleStream 1 (Resolve 1); SettleStream 0 (Resolve 1)]
               (SimpleCameraComponent2.initial true))).
Proof.
  split; [reflexivity|].
  exact (proj2 (proj2 (mounted_holds_every_live_track true
           [SettleStream 0 (Resolve 2); ClickStop; ClickStart; ClickStart;
            SettleStream 1 (Resolve 1); SettleStream 0 (Resolve 1)])) eq_refl).
Defined.

(** ** A second request while a session is held *)

(** C3, on the code: the then-callback of the mount-time permission query
    calls the startCamera of the first render, whose closure holds no stream
    and tests neither isActive nor isLoading.  When the query resolves
    'granted' on a component that holds a session (the user has started the
    camera in the meantime), the callback stops nothing and asks the host for
    a second stream with facing 'user': the request goes out while the tracks
    of the held session are live, the session stays as it was, and when the
    host grants the request the new tracks start while the old ones are still
    running. *)
Theorem C3_mount_callback_requests_while_held
    (w : World) (s : MediaStream) (t : TrackId) (n : nat) :
  mounted w = true ->
  hasCamera (host (env w)) = true ->
  stream (st (env w)) = Some s ->
  In t (getTracks s) ->
  In t (live (log (host (env w)))) ->
  let w1 := CameraComponent.step w (PermissionQueried granted) in
  let w2 := CameraComponent.step w1
              (SettleStream (List.length (inflight w)) (Resolve n)) in
  let ms := {| sid := fresh (host (env w));
               getTracks := seq (fresh (host (env w))) n |} in
  (log (host (env w1)) =
     Request (CameraConstraints user 1280 1920 720 1080 16 9 false) ::
     log (host (env w)) /\
   stream (st (env w1)) = Some s /\
   In t (live (log (host (env w1)))) /\
   exclusive (log (host (env w1))) = false) /\
  (exists stops,
     log (host (env w2)) = stops ++ Grant ms :: log (host (env w1)) /\
     In t (live (Grant ms :: log (host (env w1)))) /\
     incl (getTracks ms) (live (Grant ms :: log (host (env w1))))) /\
  exclusive (log (host (env w2))) = false.
Proof.
  intros Hm Hcam Hs Ht Hl w1 w2 ms.
  destruct (camera_click w Hm (PermissionQueried granted)
              (CameraComponent.onPermissionQueried granted) eq_refl)
    as (He1 & Hi1 & Hm1).
  fold w1 in He1, Hi1, Hm1.
  assert (Hlog1 : log (host (env w1)) =
                  Request (CameraConstraints user 1280 1920 720 1080 16 9 false) ::
                  log (host (env w)) /\
                  stream (st (env w1)) = Some s /\
                  fresh (host (env w1)) = fresh (host (env w)) /\
                  inflight w1 = inflight w ++ [AwaitStream]).
  { rewrite He1, Hi1. clear w1 w2 He1 Hi1 Hm1 ms Hl Ht.
    open_world w; subst m cam; try discriminate Hs.
    all: unfold CameraComponent.onPermissionQueried, initialState.
    all: turns; cbn [opt_list]; repeat split; exact Hs. }
  destruct Hlog1 as (Hlog1 & Hs1 & Hfr1 & Hin1).
  assert (Hex1 : exclusive (log (host (env w1))) = false).
  { rewrite Hlog1. cbn [exclusive].
    destruct (live (log (host (env w)))); [destruct Hl|reflexivity]. }
  assert (Hp : nth_error (inflight w1) (List.length (inflight w)) = Some AwaitStream).
  { rewrite Hin1, nth_error_app2, Nat.sub_diag by apply Nat.le_refl. reflexivity. }
  destruct (camera_settle_stream w1 Hm1 _ (Resolve n) Hp) as (He2 & _ & _).
  fold w2 in He2.
  assert (Hlog2 : exists stops,
             log (host (env w2)) = stops ++ Grant ms :: log (host (env w1))).
  { rewrite He2. subst ms. rewrite <- Hfr1. clear.
    generalize (env w1) as e1. intros [x [[src]|] [c f lg]].
    all: unfold turn, CameraComponent.startCamera_resumed.
    all: cbn [fst done]; rewrite log_commit; eval_env.
    all: destruct (same_stream _ _);
      [exists []; reflexivity | rewrite stopLog_app; eexists; reflexivity]. }
  split; [|split].
  - repeat split; try assumption. rewrite Hlog1. exact Hl.
  - destruct Hlog2 as [stops Hlog2]. exists stops. split; [exact Hlog2|].
    cbn [live]. split.
    + apply in_or_app. right. rewrite Hlog1. exact Hl.
    + intros x Hx. apply in_or_app. left. exact Hx.
  - destruct Hlog2 as [stops ->].
    clear -Hex1. induction stops as [|x stops IH]; cbn [app exclusive].
    + rewrite Hex1. apply Bool.andb_false_r.
    + destruct x; rewrite ?IH, ?Bool.andb_false_r; reflexivity.
Qed.

Lemma C3_witness :
  mounted activeWorld = true /\
  hasCamera (host (env activeWorld)) = true /\
  stream (st (env activeWorld)) = Some {| sid := 0; getTracks := [0] |} /\
  In 0 (live (log (host (env activeWorld)))) /\
  exclusive (log (host (env (CameraComponent.step activeWorld
                               (PermissionQueried granted))))) = false.
Proof.
  split; [reflexivity|]. split; [reflexivity|]. split; [reflexivity|].
  split; [left; reflexivity|].
  exact (proj2 (proj2 (proj2 (proj1
           (C3_mount_callback_requests_while_held activeWorld
              {| sid := 0; getTracks := [0] |} 0 1
              eq_refl eq_refl eq_refl (or_introl eq_refl) (or_introl eq_refl)))))).
Defined.

(** ** Two grants between two renders *)

Lemma live_commit2_iff (before : State) (e : Env) (t : TrackId) :
  In t (live (log (host (SimpleCameraComponent2.commit2 before e)))) <->
  In t (live (log (host e))) /\
  (same_stream (stream before) (stream (st e)) = false ->
   ~ In t (tracks_of (stream before))).
Proof.
  unfold SimpleCameraComponent2.commit2. destruct (same_stream _ _).
  - split; [intros H; split; [exact H|discriminate]|tauto].
  - unfold cleanup. destruct (stream before) as [s|]; cbn [tracks_of].
    + rewrite forEach_stop_log. cbn [withLog host log].
      rewrite live_stopLog. split; intros [H1 H2]; split; auto.
    + unfold skip. split; [intros H; split; [exact H|intros _ []]|tauto].
Qed.

Lemma st_commit2 (before : State) (e : Env) :
  st (SimpleCameraComponent2.commit2 before e) = st e.
Proof.
  unfold SimpleCameraComponent2.commit2. destruct (same_stream _ _); [reflexivity|].
  unfold cleanup. destruct (stream before); [|reflexivity].
  rewrite forEach_stop_log. reflexivity.
Qed.

Lemma together_two
    (continuation : World -> Event -> option (Segment * World))
    (c : State -> Action) (w : World) (i j : nat) (f1 f2 : Segment) (ev1 ev2 : Event) :
  mounted w = true ->
  continuation w ev1 = Some (f1, take i w) ->
  continuation (resumed f1 (take i w)) ev2 =
    Some (f2, take j (resumed f1 (take i w))) ->
  env (together continuation c [ev1; ev2] w) =
  c (st (env w)) (fst (f2 (fst (f1 (env w))))).
Proof.
  intros Hm H1 H2. unfold together. cbn [fold_left]. rewrite H1, H2.
  unfold rendered, resumed, take. cbn [env mounted]. rewrite Hm. reflexivity.
Qed.

Ltac first_leaks Hfr :=
  let t := fresh "t" in
  let Ht := fresh "Ht" in
  cbn [st host fresh] in Hfr;
  intros t Ht; split;
  [ first [rewrite live_commit_iff | rewrite live_commit2_iff];
    cbn [host log live getTracks]; split;
    [ apply in_or_app; right; apply in_or_app; left; exact Ht
    | intros _ Hold; apply Hfr in Hold; apply in_seq in Ht; lia ]
  | cbn [getTracks]; intros Hnew; apply in_seq in Ht; apply in_seq in Hnew; lia ].

(** X17. Two grants that reach a component between two renders leave the
    first stream running.  Take a mounted component with two getUserMedia
    requests in flight, whose stored tracks were all handed out before, and
    let the host grant both before React renders.  The render that follows
    stores the second stream; stop() is never called on the tracks of the
    first, which are live afterwards and belong to no stored stream.  This
    holds for CameraComponent, for SimpleCameraComponent of src/App.tsx and,
    its video element being rendered, for the auto-starting component. *)
Theorem grants_settled_together_leak (w : World) (i j n m : nat) :
  mounted w = true ->
  nth_error (inflight w) i = Some AwaitStream ->
  nth_error (remove_nth i (inflight w)) j = Some AwaitStream ->
  (forall t, In t (tracks_of (stream (st (env w)))) -> t < fresh (host (env w))) ->
  let fr := fresh (host (env w)) in
  let both := [SettleStream i (Resolve n); SettleStream j (Resolve m)] in
  let second := {| sid := fr + S n; getTracks := seq (fr + S n) m |} in
  let b := CameraComponent.settleTogether both w in
  let a := SimpleCameraComponent.settleTogether both w in
  let c := SimpleCameraComponent2.settleTogether both w in
  (stream (st (env b)) = Some second /\
   forall t, In t (seq fr n) ->
             In t (live (log (host (env b)))) /\ ~ In t (getTracks second)) /\
  (stream (st (env a)) = Some second /\
   forall t, In t (seq fr n) ->
             In t (live (log (host (env a)))) /\ ~ In t (getTracks second)) /\
  (videoRef (env w) <> None ->
   stream (st (env c)) = Some second /\
   forall t, In t (seq fr n) ->
             In t (live (log (host (env c)))) /\ ~ In t (getTracks second)).
Proof.
  intros Hm Hi Hj Hfr fr both second b a c.
  assert (Hj' : forall p, nth_error (remove_nth i (inflight w) ++ p) j = Some AwaitStream).
  { intros p. rewrite nth_error_app1; [exact Hj|].
    apply nth_error_Some. rewrite Hj. discriminate. }
  subst b a c both second fr.
  unfold CameraComponent.settleTogether, SimpleCameraComponent.settleTogether,
    SimpleCameraComponent2.settleTogether.
  rewrite (proj1 (relisten_same _ _)).
  rewrite (together_two CameraComponent.continuation commit w i j
             (CameraComponent.startCamera_resumed (Resolve n))
             (CameraComponent.startCamera_resumed (Resolve m)) _ _ Hm);
    [|unfold CameraComponent.continuation; now rewrite Hi
     |unfold CameraComponent.continuation, resumed, take; cbn [inflight];
      now rewrite Hj'].
  rewrite (together_two SimpleCameraComponent.continuation commit w i j
             (SimpleCameraComponent.startCamera_resumed (Resolve n))
             (SimpleCameraComponent.startCamera_resumed (Resolve m)) _ _ Hm);
    [|unfold SimpleCameraComponent.continuation; now rewrite Hi
     |unfold SimpleCameraComponent.continuation, resumed, take; cbn [inflight];
      now rewrite Hj'].
  rewrite (together_two SimpleCameraComponent2.continuation
             SimpleCameraComponent2.commit2 w i j
             (SimpleCameraComponent2.startCamera_resumed (Resolve n))
             (SimpleCameraComponent2.startCamera_resumed (Resolve m)) _ _ Hm);
    [|unfold SimpleCameraComponent2.continuation; now rewrite Hi
     |unfold SimpleCameraComponent2.continuation, resumed, take; cbn [inflight];
      now rewrite Hj'].
  rewrite !st_commit, st_commit2.
  split; [|split]; [| |intros Hv].
  - revert Hfr; generalize (env w) as e; intros [x [[src]|] [cam f lg]] Hfr.
    all: unfold CameraComponent.startCamera_resumed; cbn [fst done]; eval_env.
    all: (split; [reflexivity|]); first_leaks Hfr.
  - revert Hfr; generalize (env w) as e; intros [x [[src]|] [cam f lg]] Hfr.
    all: unfold SimpleCameraComponent.startCamera_resumed; cbn [fst]; eval_env.
    all: (split; [reflexivity|]); first_leaks Hfr.
  - revert Hfr Hv; generalize (env w) as e; intros [x [[src]|] [cam f lg]] Hfr Hv;
      [|elim Hv; reflexivity].
    unfold SimpleCameraComponent2.startCamera_resumed; cbn [fst done]; eval_env.
    (split; [reflexivity|]); first_leaks Hfr.
Qed.

Lemma grants_settled_together_leak_witness :
  mounted doubleStart = true /\
  nth_error (inflight doubleStart) 0 = Some AwaitStream /\
  nth_error (remove_nth 0 (inflight doubleStart)) 0 = Some AwaitStream /\
  (forall t, In t (tracks_of (stream (st (env doubleStart)))) ->
             t < fresh (host (env doubleStart))) /\
  videoRef (env doubleStart) <> None /\
  stream (st (env (SimpleCameraComponent2.settleTogether
                     [SettleStream 0 (Resolve 1); SettleStream 0 (Resolve 1)]
                     doubleStart))) =
    Some {| sid := 2; getTracks := [2] |} /\
  In 0 (live (log (host (env (SimpleCameraComponent2.settleTogether
                     [SettleStream 0 (Resolve 1); SettleStream 0 (Resolve 1)]
                     doubleStart))))).
Proof.
  assert (Hfr : forall t, In t (tracks_of (stream (st (env doubleStart)))) ->
                          t < fresh (host (env doubleStart))).
  { intros t []. }
  assert (Hv : videoRef (env doubleStart) <> None) by discriminate.
  split; [reflexivity|]. split; [reflexivity|]. split; [reflexivity|].
  split; [exact Hfr|]. split; [exact Hv|].
  pose proof (proj2 (proj2 (grants_settled_together_leak doubleStart 0 0 1 1
                              eq_refl eq_refl eq_refl Hfr)) Hv) as H.
  split; [exact (proj1 H)|].
  exact (proj1 (proj2 H 0 (or_introl eq_refl))).
Defined.
